(** * Dr.SEM: the diagram editor, the table generator and the tool suggestion

    A shallow embedding of the stateful parts of the Dr.SEM web client:

    - [ModelPreview] (the research canvas): the editor state, its event
      handlers, the mermaid text effect and the SVG link layer;
    - [ApaTableGenerator]: CSV parsing, column hiding, the three renderings;
    - [App]: the tool suggestion made after a reply of the model.

    JavaScript strings are sequences of UTF-16 code units, so a string is a
    list of code units ([N]); the regular expression class [\s] and
    [String.prototype.trim] are predicates on code units.  React state is
    threaded explicitly: a handler is a function from the state seen by the
    render that installed it to the state of the next render. *)

From Stdlib Require Import List String Ascii NArith ZArith QArith Bool Lia.
From Stdlib Require DecimalString DecimalN DecimalPos.
From Stdlib Require Import Lqa.
Import ListNotations.

Local Open Scope list_scope.

(** ** The JavaScript built-ins the sources call *)

Module JS.

(** A string value: its UTF-16 code units. *)
Definition jsstring : Type := list N.

(** An ASCII literal of the source. *)
Definition str (s : string) : jsstring :=
  map N_of_ascii (list_ascii_of_string s).

Definition nl : N := 10.
Definition underscore : N := 95.

(** [a === b] on strings. *)
Fixpoint eqb (a b : jsstring) : bool :=
  match a, b with
  | [], [] => true
  | x :: a', y :: b' => N.eqb x y && eqb a' b'
  | _, _ => false
  end.

(** Truthiness of a string: every string but the empty one. *)
Definition truthy (s : jsstring) : bool :=
  match s with [] => false | _ :: _ => true end.

(** The code units matched by [\s] and stripped by [trim]: the WhiteSpace
    and LineTerminator productions of ECMAScript. *)
Definition isWhiteSpace (c : N) : bool :=
  ((9 <=? c) && (c <=? 13)          (* TAB LF VT FF CR *)
   || (c =? 32)                      (* SPACE *)
   || (c =? 160)                     (* NO-BREAK SPACE *)
   || (c =? 5760)                    (* U+1680 OGHAM SPACE MARK *)
   || ((8192 <=? c) && (c <=? 8202)) (* U+2000 .. U+200A *)
   || (c =? 8232) || (c =? 8233)     (* U+2028 LS, U+2029 PS *)
   || (c =? 8239)                    (* U+202F *)
   || (c =? 8287)                    (* U+205F *)
   || (c =? 12288)                   (* U+3000 *)
   || (c =? 65279))%N.               (* U+FEFF *)

(** [s.replace(/\s/g, r)]: the scan of a global one-character class;
    at each position either the class matches and [r] is emitted, or the
    code unit is copied. *)
Fixpoint replaceAllWhiteSpace (r : jsstring) (s : jsstring) : jsstring :=
  match s with
  | [] => []
  | c :: s' =>
      if isWhiteSpace c then r ++ replaceAllWhiteSpace r s'
      else c :: replaceAllWhiteSpace r s'
  end.

(** [s.replace(c, r)] with a one-character string pattern: only the first
    occurrence is replaced. *)
Fixpoint replaceFirst (c : N) (r : jsstring) (s : jsstring) : jsstring :=
  match s with
  | [] => []
  | x :: s' => if N.eqb x c then r ++ s' else x :: replaceFirst c r s'
  end.

Fixpoint trimStart (s : jsstring) : jsstring :=
  match s with
  | [] => []
  | c :: s' => if isWhiteSpace c then trimStart s' else s
  end.

Definition trimEnd (s : jsstring) : jsstring := rev (trimStart (rev s)).

(** [s.trim()]. *)
Definition trim (s : jsstring) : jsstring := trimEnd (trimStart s).

(** [s.split(c)] with a one-character separator: the pieces between the
    occurrences of [c]; the empty string gives one empty piece. *)
Fixpoint split (c : N) (s : jsstring) : list jsstring :=
  match s with
  | [] => [[]]
  | x :: s' =>
      if N.eqb x c then [] :: split c s'
      else match split c s' with
           | [] => [[x]]
           | p :: ps => (x :: p) :: ps
           end
  end.

(** [xs.join(sep)]. *)
Fixpoint join (sep : jsstring) (xs : list jsstring) : jsstring :=
  match xs with
  | [] => []
  | [x] => x
  | x :: xs' => x ++ sep ++ join sep xs'
  end.

Fixpoint startsWith (p s : jsstring) : bool :=
  match p, s with
  | [], _ => true
  | a :: p', b :: s' => N.eqb a b && startsWith p' s'
  | _ :: _, [] => false
  end.

(** [s.includes(p)] on strings: [p] occurs in [s] as a substring. *)
Fixpoint includes (s p : jsstring) : bool :=
  startsWith p s ||
  match s with
  | [] => false
  | _ :: s' => includes s' p
  end.

(** [xs.includes(x)] on arrays. *)
Definition arrayIncludes {A} (eq : A -> A -> bool) (xs : list A) (x : A)
  : bool := existsb (eq x) xs.

(** [xs.some(p)]. *)
Definition some {A} (p : A -> bool) (xs : list A) : bool := existsb p xs.

(** [xs.find(p)]: the first element that satisfies [p], or [undefined]. *)
Definition find {A} (p : A -> bool) (xs : list A) : option A :=
  List.find p xs.

Fixpoint mapiFrom {A B} (i : nat) (f : A -> nat -> B) (xs : list A)
  : list B :=
  match xs with
  | [] => []
  | x :: xs' => f x i :: mapiFrom (S i) f xs'
  end.

(** [xs.map((x, i) => ...)]. *)
Definition mapi {A B} (f : A -> nat -> B) (xs : list A) : list B :=
  mapiFrom 0 f xs.

Fixpoint filteriFrom {A} (i : nat) (p : A -> nat -> bool) (xs : list A)
  : list A :=
  match xs with
  | [] => []
  | x :: xs' =>
      if p x i then x :: filteriFrom (S i) p xs'
      else filteriFrom (S i) p xs'
  end.

(** [xs.filter((x, i) => ...)]. *)
Definition filteri {A} (p : A -> nat -> bool) (xs : list A) : list A :=
  filteriFrom 0 p xs.

(** A relative index of [slice], clamped into [0 .. len]. *)
Definition clampIndex (len : nat) (i : Z) : nat :=
  if (i <? 0)%Z then Z.to_nat (Z.max (Z.of_nat len + i) 0)
  else Nat.min (Z.to_nat i) len.

(** [xs.slice(start, end)]. *)
Definition slice {A} (xs : list A) (start stop : Z) : list A :=
  let len := List.length xs in
  let k := clampIndex len start in
  let final := clampIndex len stop in
  firstn (final - k) (skipn k xs).

(** [xs.slice(start)]: the end defaults to the length. *)
Definition sliceFrom {A} (xs : list A) (start : Z) : list A :=
  slice xs start (Z.of_nat (List.length xs)).

(** [String(n)] for a non-negative integer. *)
Definition ofN (n : N) : jsstring :=
  str (DecimalString.NilZero.string_of_uint (N.to_uint n)).

(** Completion of an evaluation: a value, or a thrown [TypeError]. *)
Inductive completion (A : Type) : Type :=
| Normal (a : A)
| Throw (message : string).
Arguments Normal {A} a.
Arguments Throw {A} message.

Definition bind {A B} (m : completion A) (k : A -> completion B)
  : completion B :=
  match m with
  | Normal a => k a
  | Throw e => Throw e
  end.

(** [xs.map(f)] when the callback may throw: the first throw aborts. *)
Fixpoint mapiFromM {A B} (i : nat) (f : A -> nat -> completion B)
  (xs : list A) : completion (list B) :=
  match xs with
  | [] => Normal []
  | x :: xs' =>
      bind (f x i) (fun y =>
      bind (mapiFromM (S i) f xs') (fun ys => Normal (y :: ys)))
  end.

Definition mapiM {A B} (f : A -> nat -> completion B) (xs : list A)
  : completion (list B) := mapiFromM 0 f xs.

(** [o.p] where [o] may be [undefined]. *)
Definition getProp {O A} (p : O -> A) (o : option O) : completion A :=
  match o with
  | Some v => Normal (p v)
  | None => Throw "TypeError: cannot read properties of undefined"
  end.

(** Truthiness of an object reference or [undefined]. *)
Definition defined {O} (o : option O) : bool :=
  match o with Some _ => true | None => false end.

(** A string of whitespace only: what [trim] empties. *)
Definition blank (t : jsstring) : Prop :=
  Forall (fun c => isWhiteSpace c = true) t.

(** A string with no whitespace at either end. *)
Definition edgeTrimmed (t : jsstring) : Prop :=
  (forall c rest, t = c :: rest -> isWhiteSpace c = false)
  /\ (forall c rest, t = rest ++ [c] -> isWhiteSpace c = false).

End JS.

Notation "x <- m ;; k" := (JS.bind m (fun x => k))
  (at level 61, m at next level, right associativity).

(** ** types.ts *)

Inductive NodeType : Type := latent | observed.

Inductive LinkType : Type := directed | covariance.

Inductive ToolMode : Type := CONCEPTUAL | FIT_CHECKER | APA_TABLE | JAMOVI.

Definition NodeType_eqb (a b : NodeType) : bool :=
  match a, b with
  | latent, latent | observed, observed => true
  | _, _ => false
  end.

(** [t === k] where [t] is the optional [type] field of a link. *)
Definition LinkType_is (t : option LinkType) (k : LinkType) : bool :=
  match t, k with
  | Some directed, directed | Some covariance, covariance => true
  | _, _ => false
  end.

(** The string a node type is at run time. *)
Definition NodeType_text (t : NodeType) : JS.jsstring :=
  match t with
  | latent => JS.str "latent"
  | observed => JS.str "observed"
  end.

(** Coordinates are JavaScript numbers; they are modelled as rationals, the
    rounding of doubles being of no concern to the editor's logic. *)
Record Node : Type := mkNode {
  id : JS.jsstring;
  label : JS.jsstring;
  type : NodeType;
  x : Q;
  y : Q
}.

(** The field [type] of a link is [linkKind] here, the name being taken by
    [Node].  It is optional in the interface: links restored from storage
    may lack it. *)
Record Link : Type := mkLink {
  source : JS.jsstring;
  target : JS.jsstring;
  linkKind : option LinkType
}.

(** ** ModelPreview: the research canvas *)

Module ModelPreview.

Inductive ViewMode : Type := canvas | mermaid.
Inductive InteractionMode : Type := move | link.

Record Point : Type := mkPoint { px : Q; py : Q }.

(** The props [nodes], [links] and [isDarkMode] (state of [App], written
    through [setNodes] and [setLinks]) followed by the component's own
    [useState] cells. *)
Record State : Type := mkState {
  nodes : list Node;
  links : list Link;
  isDarkMode : bool;
  newNodeLabel : JS.jsstring;
  nodeType : NodeType;
  mermaidSyntax : JS.jsstring;
  viewMode : ViewMode;
  interactionMode : InteractionMode;
  linkType : LinkType;
  linkingSourceId : option JS.jsstring;
  tempLineEnd : option Point
}.

Definition setNodes (v : list Node) (s : State) : State :=
  mkState v (links s) (isDarkMode s) (newNodeLabel s) (nodeType s)
    (mermaidSyntax s) (viewMode s) (interactionMode s) (linkType s)
    (linkingSourceId s) (tempLineEnd s).

Definition setLinks (v : list Link) (s : State) : State :=
  mkState (nodes s) v (isDarkMode s) (newNodeLabel s) (nodeType s)
    (mermaidSyntax s) (viewMode s) (interactionMode s) (linkType s)
    (linkingSourceId s) (tempLineEnd s).

Definition setIsDarkMode (v : bool) (s : State) : State :=
  mkState (nodes s) (links s) v (newNodeLabel s) (nodeType s)
    (mermaidSyntax s) (viewMode s) (interactionMode s) (linkType s)
    (linkingSourceId s) (tempLineEnd s).

Definition setNewNodeLabel (v : JS.jsstring) (s : State) : State :=
  mkState (nodes s) (links s) (isDarkMode s) v (nodeType s)
    (mermaidSyntax s) (viewMode s) (interactionMode s) (linkType s)
    (linkingSourceId s) (tempLineEnd s).

Definition setNodeType (v : NodeType) (s : State) : State :=
  mkState (nodes s) (links s) (isDarkMode s) (newNodeLabel s) v
    (mermaidSyntax s) (viewMode s) (interactionMode s) (linkType s)
    (linkingSourceId s) (tempLineEnd s).

Definition setMermaidSyntax (v : JS.jsstring) (s : State) : State :=
  mkState (nodes s) (links s) (isDarkMode s) (newNodeLabel s) (nodeType s)
    v (viewMode s) (interactionMode s) (linkType s)
    (linkingSourceId s) (tempLineEnd s).

Definition setViewMode (v : ViewMode) (s : State) : State :=
  mkState (nodes s) (links s) (isDarkMode s) (newNodeLabel s) (nodeType s)
    (mermaidSyntax s) v (interactionMode s) (linkType s)
    (linkingSourceId s) (tempLineEnd s).

Definition setInteractionMode (v : InteractionMode) (s : State) : State :=
  mkState (nodes s) (links s) (isDarkMode s) (newNodeLabel s) (nodeType s)
    (mermaidSyntax s) (viewMode s) v (linkType s)
    (linkingSourceId s) (tempLineEnd s).

Definition setLinkType (v : LinkType) (s : State) : State :=
  mkState (nodes s) (links s) (isDarkMode s) (newNodeLabel s) (nodeType s)
    (mermaidSyntax s) (viewMode s) (interactionMode s) v
    (linkingSourceId s) (tempLineEnd s).

Definition setLinkingSourceId (v : option JS.jsstring) (s : State)
  : State :=
  mkState (nodes s) (links s) (isDarkMode s) (newNodeLabel s) (nodeType s)
    (mermaidSyntax s) (viewMode s) (interactionMode s) (linkType s)
    v (tempLineEnd s).

Definition setTempLineEnd (v : option Point) (s : State) : State :=
  mkState (nodes s) (links s) (isDarkMode s) (newNodeLabel s) (nodeType s)
    (mermaidSyntax s) (viewMode s) (interactionMode s) (linkType s)
    (linkingSourceId s) v.

(** The state of the first render, for the props handed down by [App]. *)
Definition initialState (ns : list Node) (ls : list Link) (dark : bool)
  : State :=
  mkState ns ls dark [] latent [] canvas move directed None None.

(** *** The mermaid text (second [useEffect]) *)

Definition classDefs (dark : bool) : JS.jsstring :=
  if dark then
    JS.str "classDef latent fill:#1e293b,stroke:#e2e8f0,stroke-width:2px,rx:50,ry:50,color:#fff;" ++ [JS.nl]
    ++ JS.str "classDef observed fill:#0f172a,stroke:#06b6d4,stroke-width:1px,rx:0,ry:0,color:#fff;" ++ [JS.nl]
  else
    JS.str "classDef latent fill:#fff,stroke:#333,stroke-width:2px,rx:50,ry:50;" ++ [JS.nl]
    ++ JS.str "classDef observed fill:#f0f9ff,stroke:#0891b2,stroke-width:1px,rx:0,ry:0;" ++ [JS.nl].

(** The body of [nodes.forEach]: one [syntax += ...]. *)
Definition appendNode (syntax : JS.jsstring) (node : Node) : JS.jsstring :=
  let safeLabel := JS.replaceAllWhiteSpace [JS.underscore] (label node) in
  let shape :=
    if NodeType_eqb (type node) latent
    then JS.str "((" ++ safeLabel ++ JS.str "))"
    else JS.str "[" ++ safeLabel ++ JS.str "]" in
  syntax ++ (id node ++ shape ++ JS.str ":::" ++ NodeType_text (type node)
             ++ [JS.nl]).

(** The body of [links.forEach]. *)
Definition appendLink (syntax : JS.jsstring) (l : Link) : JS.jsstring :=
  let arrow :=
    if LinkType_is (linkKind l) covariance then JS.str "<-->"
    else JS.str "-->" in
  syntax ++ (source l ++ JS.str " " ++ arrow ++ JS.str " " ++ target l
             ++ [JS.nl]).

Definition generateSyntax (ns : list Node) (ls : list Link) (dark : bool)
  : JS.jsstring :=
  let syntax := JS.str "graph LR" ++ [JS.nl] in
  let syntax := syntax ++ classDefs dark in
  let syntax := fold_left appendNode ns syntax in
  let syntax := fold_left appendLink ls syntax in
  syntax.

(** The effect: it reads [nodes], [links], [isDarkMode] and overwrites
    [mermaidSyntax]. *)
Definition syntaxEffect (s : State) : State :=
  setMermaidSyntax (generateSyntax (nodes s) (links s) (isDarkMode s)) s.

(** *** Event handlers *)

(** [addNode]; [now] is [Date.now()], [r1] and [r2] the two draws of
    [Math.random()]. *)
Definition addNode (now : N) (r1 r2 : Q) (s : State) : State :=
  if negb (JS.truthy (JS.trim (newNodeLabel s))) then s
  else
    let newNode :=
      mkNode (JS.str "n" ++ JS.ofN now) (newNodeLabel s) (nodeType s)
             (100 + r1 * 50) (100 + r2 * 50) in
    setNewNodeLabel [] (setNodes (nodes s ++ [newNode]) s).

(** The callback of [links.some] in [handleNodeClick]. *)
Definition equivalentLink (linkingSourceId id : JS.jsstring)
  (linkType : LinkType) (l : Link) : bool :=
  (JS.eqb (source l) linkingSourceId && JS.eqb (target l) id)
  || (LinkType_is (Some linkType) covariance
      && JS.eqb (source l) id && JS.eqb (target l) linkingSourceId).

Definition handleNodeClick (id : JS.jsstring) (s : State) : State :=
  match interactionMode s with
  | link =>
      match linkingSourceId s with
      | None => setLinkingSourceId (Some id) s
      | Some src =>
          if JS.eqb src id then
            setTempLineEnd None (setLinkingSourceId None s)
          else
            let s1 :=
              if negb (JS.eqb src id) then
                let exists_ :=
                  JS.some (equivalentLink src id (linkType s)) (links s) in
                if negb exists_ then
                  setLinks (links s ++ [mkLink src id (Some (linkType s))]) s
                else s
              else s in
            setTempLineEnd None (setLinkingSourceId None s1)
      end
  | move => s
  end.

(** [handleMouseMove]: the pointer and the origin of the canvas box. *)
Definition handleMouseMove (clientX clientY left top : Q) (s : State)
  : State :=
  match interactionMode s, linkingSourceId s with
  | link, Some src =>
      if JS.truthy src
      then setTempLineEnd (Some (mkPoint (clientX - left) (clientY - top))) s
      else s
  | _, _ => s
  end.

Definition removeLastLink (s : State) : State :=
  if (0 <? List.length (links s))%nat
  then setLinks (JS.slice (links s) 0 (-1)) s
  else s.

(** [clearAllLinks]; [confirmed] is the answer of [window.confirm]. *)
Definition clearAllLinks (confirmed : bool) (s : State) : State :=
  if confirmed then setLinks [] s else s.

(** The two mode buttons. *)
Definition clickMoveMode (s : State) : State :=
  setTempLineEnd None (setLinkingSourceId None (setInteractionMode move s)).

Definition clickLinkMode (s : State) : State :=
  setLinkingSourceId None (setInteractionMode link s).

(** [onDragEnd] of the node [node]; [rect] is the origin of the parent's
    box when the parent exists. *)
Definition handleDragEnd (node : Node) (clientX clientY : Q)
  (rect : option Point) (s : State) : State :=
  match interactionMode s with
  | link => s
  | move =>
      match rect with
      | None => s
      | Some r =>
          let newX := clientX - px r
                      - (if NodeType_eqb (type node) latent then 50 else 60) in
          let newY := clientY - py r - 25 in
          setNodes
            (map (fun n => if JS.eqb (id n) (id node)
                           then mkNode (id n) (label n) (type n) newX newY
                           else n)
                 (nodes s)) s
      end
  end.

(** *** The SVG link layer *)

Record LineElement : Type := mkLine {
  key : nat;
  x1 : Q;
  y1 : Q;
  x2 : Q;
  y2 : Q;
  stroke : JS.jsstring;
  strokeWidth : JS.jsstring;
  markerEnd : JS.jsstring;
  markerStart : option JS.jsstring;
  strokeDasharray : option JS.jsstring
}.

Definition halfWidth (t : NodeType) : Q :=
  if NodeType_eqb t latent then 50 else 60.

(** The callback of [links.map]: [null] or a [<line>].  A property read on
    the result of [find] throws when the result is [undefined]. *)
Definition renderLink (ns : list Node) (dark : bool) (l : Link) (idx : nat)
  : JS.completion (option LineElement) :=
  let source_ := JS.find (fun n => JS.eqb (id n) (source l)) ns in
  let target_ := JS.find (fun n => JS.eqb (id n) (target l)) ns in
  if negb (JS.defined source_) || negb (JS.defined target_)
  then JS.Normal None
  else
    sx <- JS.getProp x source_ ;;
    st <- JS.getProp type source_ ;;
    sy <- JS.getProp y source_ ;;
    tx <- JS.getProp x target_ ;;
    tt <- JS.getProp type target_ ;;
    ty <- JS.getProp y target_ ;;
    JS.Normal (Some
      (mkLine idx
         (sx + halfWidth st) (sy + 25)
         (tx + halfWidth tt) (ty + 25)
         (if dark then JS.str "#94a3b8" else JS.str "#64748b")
         (JS.str "2")
         (JS.str "url(#arrowhead)")
         (if LinkType_is (linkKind l) covariance
          then Some (JS.str "url(#arrowhead-start)") else None)
         (if LinkType_is (linkKind l) covariance
          then Some (JS.str "5,5") else None))).

(** [links.map((link, idx) => ...)] of the render. *)
Definition renderLinkLayer (s : State)
  : JS.completion (list (option LineElement)) :=
  JS.mapiM (renderLink (nodes s) (isDarkMode s)) (links s).

(** *** The editor as a transition system *)

Inductive Event : Type :=
| ClickViewMode (v : ViewMode)
| ClickMoveMode
| ClickLinkMode
| ClickLinkType (k : LinkType)
| ClickUndoLastLink
| ClickClearAllLinks (confirmed : bool)
| MouseMove (clientX clientY left top : Q)
| NodeClick (id : JS.jsstring)
| DragEnd (node : Node) (clientX clientY : Q) (rect : option Point)
| ChangeNodeType (t : NodeType)
| ChangeNewNodeLabel (v : JS.jsstring)
| ClickAdd (now : N) (r1 r2 : Q)
| ThemeToggled
| StorageLoaded (savedNodes : option (list Node))
    (savedLinks : option (list Link)) (savedDark : bool)
| Remounted.

(** The persistence effect of [App]: what storage holds replaces the
    props. *)
Definition restoreFromStorage (savedNodes : option (list Node))
  (savedLinks : option (list Link)) (savedDark : bool) (s : State) : State :=
  let s := match savedNodes with Some ns => setNodes ns s | None => s end in
  let s := match savedLinks with Some ls => setLinks ls s | None => s end in
  if savedDark then setIsDarkMode true s else s.

(** The handler each event is bound to.  [ThemeToggled] and [StorageLoaded]
    are the prop changes made by [App]; [Remounted] is the tool tab being
    left and entered again, which resets the component's own cells and keeps
    the props. *)
Definition handle (e : Event) (s : State) : State :=
  match e with
  | ClickViewMode v => setViewMode v s
  | ClickMoveMode => clickMoveMode s
  | ClickLinkMode => clickLinkMode s
  | ClickLinkType k => setLinkType k s
  | ClickUndoLastLink => removeLastLink s
  | ClickClearAllLinks confirmed => clearAllLinks confirmed s
  | MouseMove cx cy l t => handleMouseMove cx cy l t s
  | NodeClick i => handleNodeClick i s
  | DragEnd n cx cy r => handleDragEnd n cx cy r s
  | ChangeNodeType t => setNodeType t s
  | ChangeNewNodeLabel v => setNewNodeLabel v s
  | ClickAdd now r1 r2 => addNode now r1 r2 s
  | ThemeToggled => setIsDarkMode (negb (isDarkMode s)) s
  | StorageLoaded ns ls dark => restoreFromStorage ns ls dark s
  | Remounted => initialState (nodes s) (links s) (isDarkMode s)
  end.

(** One event followed by the render and its effect. *)
Definition step (e : Event) (s : State) : State :=
  syntaxEffect (handle e s).

Definition run (es : list Event) (s : State) : State :=
  fold_left (fun st e => step e st) es s.

(** The states the editor can be in: the first render for some props, then
    any sequence of events.  Buttons that a render hides or disables are
    not excluded, so the set is a superset of what the UI allows. *)
Inductive reachable : State -> Prop :=
| reachable_mount ns ls dark :
    reachable (syntaxEffect (initialState ns ls dark))
| reachable_step e s :
    reachable s -> reachable (step e s).

(** *** The generated text, as the specification words it *)

(** Every whitespace character of a label becomes the filler. *)
Definition sanitize (lbl : JS.jsstring) : JS.jsstring :=
  map (fun c => if JS.isWhiteSpace c then JS.underscore else c) lbl.

(** Rounded marker for latent nodes, rectangular for observed ones. *)
Definition shapeMarker (t : NodeType) (body : JS.jsstring) : JS.jsstring :=
  match t with
  | latent => JS.str "((" ++ body ++ JS.str "))"
  | observed => JS.str "[" ++ body ++ JS.str "]"
  end.

Definition nodeDeclaration (n : Node) : JS.jsstring :=
  id n ++ shapeMarker (type n) (sanitize (label n)) ++ JS.str ":::"
  ++ NodeType_text (type n) ++ [JS.nl].

(** Single arrow for directed links, double arrow for covariance. *)
Definition arrowMarker (k : option LinkType) : JS.jsstring :=
  match k with
  | Some covariance => JS.str "<-->"
  | Some directed | None => JS.str "-->"
  end.

Definition linkDeclaration (l : Link) : JS.jsstring :=
  source l ++ JS.str " " ++ arrowMarker (linkKind l) ++ JS.str " "
  ++ target l ++ [JS.nl].

(** The style a class name stands for, keyed by kind and theme. *)
Definition classStyle (t : NodeType) (dark : bool) : JS.jsstring :=
  match t, dark with
  | latent, true =>
      JS.str "fill:#1e293b,stroke:#e2e8f0,stroke-width:2px,rx:50,ry:50,color:#fff;"
  | observed, true =>
      JS.str "fill:#0f172a,stroke:#06b6d4,stroke-width:1px,rx:0,ry:0,color:#fff;"
  | latent, false =>
      JS.str "fill:#fff,stroke:#333,stroke-width:2px,rx:50,ry:50;"
  | observed, false =>
      JS.str "fill:#f0f9ff,stroke:#0891b2,stroke-width:1px,rx:0,ry:0;"
  end.

Definition classDeclaration (t : NodeType) (dark : bool) : JS.jsstring :=
  JS.str "classDef " ++ NodeType_text t ++ JS.str " " ++ classStyle t dark
  ++ [JS.nl].

(** A link is dangling when an endpoint names no node of the list. *)
Definition hasNode (ns : list Node) (i : JS.jsstring) : bool :=
  existsb (fun n => JS.eqb (id n) i) ns.

Definition dangling (ns : list Node) (l : Link) : bool :=
  negb (hasNode ns (source l)) || negb (hasNode ns (target l)).

(** The line drawn for [l] between the anchors of [src] and [tgt]. *)
Definition lineBetween (dark : bool) (l : Link) (idx : nat) (src tgt : Node)
  : LineElement :=
  mkLine idx
    (x src + halfWidth (type src)) (y src + 25)
    (x tgt + halfWidth (type tgt)) (y tgt + 25)
    (if dark then JS.str "#94a3b8" else JS.str "#64748b")
    (JS.str "2")
    (JS.str "url(#arrowhead)")
    (if LinkType_is (linkKind l) covariance
     then Some (JS.str "url(#arrowhead-start)") else None)
    (if LinkType_is (linkKind l) covariance
     then Some (JS.str "5,5") else None).

(** The first node of the list with the id [i]. *)
Definition nodeWithId (ns : list Node) (i : JS.jsstring) : option Node :=
  List.find (fun n => JS.eqb (id n) i) ns.

(** A stored link [l] is equivalent to the link from [src] to [tgt] of kind
    [kind]: the same source and target, or, when a covariance is being
    created, the reversed pair. *)
Definition equivalentTo (src tgt : JS.jsstring) (kind : LinkType) (l : Link)
  : Prop :=
  (source l = src /\ target l = tgt)
  \/ (kind = covariance /\ source l = tgt /\ target l = src).

Definition hasEquivalent (src tgt : JS.jsstring) (kind : LinkType)
  (ls : list Link) : Prop :=
  exists l, In l ls /\ equivalentTo src tgt kind l.

(** Links from [a] to [b], of any kind. *)
Definition linksBetween (a b : JS.jsstring) (ls : list Link) : list Link :=
  filter (fun l => JS.eqb (source l) a && JS.eqb (target l) b) ls.

(** *** The preview line of a pending link *)

Record TempLineElement : Type := mkTempLine {
  tx1 : Q;
  ty1 : Q;
  tx2 : Q;
  ty2 : Q;
  tstroke : JS.jsstring;
  tstrokeWidth : JS.jsstring;
  tstrokeDasharray : JS.jsstring
}.

(** [{linkingSourceId && tempLineEnd && (() => { ... })()}]: nothing, or
    the dashed line from the pending source to the pointer. *)
Definition renderTempLine (s : State)
  : JS.completion (option TempLineElement) :=
  match linkingSourceId s with
  | None => JS.Normal None
  | Some sid =>
      if negb (JS.truthy sid) then JS.Normal None
      else
        match tempLineEnd s with
        | None => JS.Normal None
        | Some p =>
            let source_ := JS.find (fun n => JS.eqb (id n) sid) (nodes s) in
            if negb (JS.defined source_) then JS.Normal None
            else
              sx <- JS.getProp x source_ ;;
              st <- JS.getProp type source_ ;;
              sy <- JS.getProp y source_ ;;
              JS.Normal (Some
                (mkTempLine (sx + halfWidth st) (sy + 25) (px p) (py p)
                   (if isDarkMode s then JS.str "#cbd5e1"
                    else JS.str "#94a3b8")
                   (JS.str "2") (JS.str "5,5")))
        end
  end.

(** *** Shapes of the link store *)

Definition endpoints (l : Link) : JS.jsstring * JS.jsstring :=
  (source l, target l).

Definition noSelfLoop (ls : list Link) : Prop :=
  Forall (fun l => source l <> target l) ls.

Definition distinctPairs (ls : list Link) : Prop :=
  NoDup (map endpoints ls).

(** No covariance was appended after a link between the same two nodes in
    the other direction. *)
Definition covarianceUnmirrored (ls : list Link) : Prop :=
  forall pre l post, ls = pre ++ l :: post ->
    linkKind l = Some covariance ->
    forall l', In l' pre -> ~ (source l' = target l /\ target l' = source l).

Definition storeOk (ls : list Link) : Prop :=
  noSelfLoop ls /\ distinctPairs ls /\ covarianceUnmirrored ls.

(** The events that replace the link list by what storage holds. *)
Definition loadsLinks (e : Event) : bool :=
  match e with
  | StorageLoaded _ (Some _) _ => true
  | _ => false
  end.


(** Where [handleDragEnd] puts a node of the list. *)
Definition dropped (node : Node) (clientX clientY : Q) (r : Point) (n : Node)
  : Node :=
  if JS.eqb (id n) (id node)
  then mkNode (id n) (label n) (type n)
         (clientX - px r - halfWidth (type node)) (clientY - py r - 25)
  else n.

End ModelPreview.

(** ** ApaTableGenerator *)

Module ApaTableGenerator.

Record State : Type := mkState {
  dataText : JS.jsstring;
  title : JS.jsstring;
  note : JS.jsstring;
  hiddenColumns : list JS.jsstring;
  copied : bool
}.

Definition comma : N := 44.

(** [dataText.trim().split('\n').map(r => r.split(',').map(c => c.trim()))] *)
Definition rows (s : State) : list (list JS.jsstring) :=
  map (fun r => map JS.trim (JS.split comma r))
      (JS.split JS.nl (JS.trim (dataText s))).

(** [rows[0] || []] *)
Definition allHeaders (s : State) : list JS.jsstring :=
  match nth_error (rows s) 0 with
  | Some r => r
  | None => []
  end.

Definition allBody (s : State) : list (list JS.jsstring) :=
  JS.sliceFrom (rows s) 1.

(** The [indices] of [getVisibleData]: hidden columns are marked -1 and
    filtered out. *)
Definition indices (s : State) : list Z :=
  filter (fun i => negb (i =? -1)%Z)
    (JS.mapi (fun h i =>
                if JS.arrayIncludes JS.eqb (hiddenColumns s) h
                then (-1)%Z else Z.of_nat i)
             (allHeaders s)).

Definition keepIndices {A} (ix : list Z) (xs : list A) : list A :=
  JS.filteri (fun _ i => JS.arrayIncludes Z.eqb ix (Z.of_nat i)) xs.

(** [getVisibleData()]: the pair [{h, b}]. *)
Definition getVisibleData (s : State)
  : list JS.jsstring * list (list JS.jsstring) :=
  let ix := indices s in
  let h := keepIndices ix (allHeaders s) in
  let b := map (fun row => keepIndices ix row) (allBody s) in
  (h, b).

Definition header (s : State) : list JS.jsstring := fst (getVisibleData s).
Definition body (s : State) : list (list JS.jsstring) :=
  snd (getVisibleData s).

Definition toggleColumn (col : JS.jsstring) (s : State) : State :=
  mkState (dataText s) (title s) (note s)
    (if JS.arrayIncludes JS.eqb (hiddenColumns s) col
     then filter (fun c => negb (JS.eqb c col)) (hiddenColumns s)
     else hiddenColumns s ++ [col])
    (copied s).

Definition cellSep : JS.jsstring := JS.str " | ".

(** One [mdTable += ...] of [body.forEach]. *)
Definition appendRow (mdTable : JS.jsstring) (row : list JS.jsstring)
  : JS.jsstring :=
  mdTable ++ (JS.str "| " ++ JS.join cellSep row ++ JS.str " |" ++ [JS.nl]).

(** The text [handleCopyMarkdown] writes to the clipboard. *)
Definition markdownTable (s : State) : JS.jsstring :=
  let mdTable :=
    JS.str "**"
    ++ JS.replaceFirst JS.nl (JS.str "**  " ++ [JS.nl] ++ JS.str "*") (title s)
    ++ JS.str "*" ++ [JS.nl; JS.nl] in
  let mdTable :=
    mdTable ++ (JS.str "| " ++ JS.join cellSep (header s) ++ JS.str " |"
                ++ [JS.nl]) in
  let mdTable :=
    mdTable ++ (JS.str "| "
                ++ JS.join cellSep (map (fun _ => JS.str "---") (header s))
                ++ JS.str " |" ++ [JS.nl]) in
  let mdTable := fold_left appendRow (body s) mdTable in
  mdTable ++ ([JS.nl] ++ JS.str "*" ++ note s ++ JS.str "*").

(** The [head] and [body] options [handleExportPDF] hands to [autoTable]. *)
Definition pdfTable (s : State)
  : list (list JS.jsstring) * list (list JS.jsstring) :=
  ([header s], body s).

(** The preview: one [<th>] for each header, one [<tr>] of [<td>]s for
    each body row. *)
Record TableElement : Type := mkTable {
  thead : list JS.jsstring;
  tbody : list (list JS.jsstring)
}.

Definition preview (s : State) : TableElement :=
  mkTable (map (fun head => head) (header s))
          (map (fun row => map (fun cell => cell) row) (body s)).

(** *** The table, as the specification words it *)

Definition visible (hidden : list JS.jsstring) (h : JS.jsstring) : bool :=
  negb (existsb (JS.eqb h) hidden).

(** The cells of a row that stand under a visible header. *)
Definition visibleCells (hidden : list JS.jsstring)
  (headers : list JS.jsstring) (row : list JS.jsstring)
  : list JS.jsstring :=
  map snd (filter (fun hc => visible hidden (fst hc)) (combine headers row)).

(** A row with one cell for each visible header position, empty where the
    row has no field. *)
Definition paddedCells (hidden : list JS.jsstring)
  (headers : list JS.jsstring) (row : list JS.jsstring)
  : list JS.jsstring :=
  visibleCells hidden headers
    (row ++ repeat [] (List.length headers - List.length row)).

(** Short rows rendered with empty cells at the missing positions. *)
Definition shortRowsPadded (s : State) : Prop :=
  body s = map (paddedCells (hiddenColumns s) (allHeaders s)) (allBody s).

Definition markdownRow (row : list JS.jsstring) : JS.jsstring :=
  JS.str "| " ++ JS.join cellSep row ++ JS.str " |" ++ [JS.nl].


(** [title.split('\n')], as the preview and [handleExportPDF] read it. *)
Definition titleLines (s : State) : list JS.jsstring :=
  JS.split JS.nl (title s).

(** The bold line and the italic line of the preview and of the PDF:
    [titleLines[0]] and [titleLines[1]], the second possibly [undefined]. *)
Definition titleShown (s : State)
  : option JS.jsstring * option JS.jsstring :=
  (nth_error (titleLines s) 0, nth_error (titleLines s) 1).

(** The italic line [handleExportPDF] draws: [titleLines[1]] when it is
    truthy. *)
Definition pdfItalicLine (s : State) : option JS.jsstring :=
  match nth_error (titleLines s) 1 with
  | Some t => if JS.truthy t then Some t else None
  | None => None
  end.

(** [startY: titleLines.length > 1 ? 28 : 20] *)
Definition pdfStartY (s : State) : Z :=
  if (1 <? List.length (titleLines s))%nat then 28%Z else 20%Z.


End ApaTableGenerator.

(** ** App: the tool suggestion *)

Module App.

Inductive Sender : Type := USER | AI.

Record Message : Type := mkMessage {
  id : JS.jsstring;
  text : JS.jsstring;
  sender : Sender;
  timestamp : N;
  attachments : option (list JS.jsstring);
  suggestedQuestions : option (list JS.jsstring);
  relatedQuestions : option (list JS.jsstring)
}.

(** What [sendMessageToGemini] resolves to. *)
Record Response : Type := mkResponse {
  answer : option JS.jsstring;
  responseSuggested : option (list JS.jsstring);
  responseRelated : option (list JS.jsstring)
}.

Record State : Type := mkState {
  messages : list Message;
  isLoading : bool;
  activeTool : ToolMode;
  apiKeyMissing : bool;
  suggestedTool : option ToolMode
}.

(** The graph [App] starts with when storage holds none. *)
Definition defaultNodes : list Node :=
  [mkNode (JS.str "1") (JS.str "Leadership") latent 50 50;
   mkNode (JS.str "2") (JS.str "Quality") latent 250 50;
   mkNode (JS.str "3") (JS.str "Success") latent 150 200].

Definition defaultLinks : list Link :=
  [mkLink (JS.str "1") (JS.str "3") (Some directed);
   mkLink (JS.str "2") (JS.str "3") (Some directed)].

(** "ตาราง" *)
Definition thaiTable : JS.jsstring := [3605; 3634; 3619; 3634; 3591]%N.

(** [String.prototype.toLowerCase] restricted to what it does on the
    letters A-Z; used to run the heuristic on ASCII replies. *)
Definition toLowerCaseAscii (s : JS.jsstring) : JS.jsstring :=
  map (fun c => if ((65 <=? c) && (c <=? 90))%N then (c + 32)%N else c) s.

Section Suggestion.

(** The built-in [String.prototype.toLowerCase] (Unicode case mapping). *)
Variable toLowerCase : JS.jsstring -> JS.jsstring.

(** [response.answer?.toLowerCase() || ""] *)
Definition lowerTextOf (answer : option JS.jsstring) : JS.jsstring :=
  match answer with
  | Some a => let l := toLowerCase a in if JS.truthy l then l else []
  | None => []
  end.

(** The [if / else if] chain: the call of [setSuggestedTool], if any. *)
Definition suggest (lowerText : JS.jsstring) : option ToolMode :=
  if JS.includes lowerText (JS.str "cfi")
     || JS.includes lowerText (JS.str "rmsea")
     || JS.includes lowerText (JS.str "fit index")
  then Some FIT_CHECKER
  else if JS.includes lowerText (JS.str "apa table")
          || JS.includes lowerText thaiTable
  then Some APA_TABLE
  else if JS.includes lowerText (JS.str "jamovi")
          || JS.includes lowerText (JS.str "syntax")
          || JS.includes lowerText (JS.str "code")
  then Some JAMOVI
  else None.

(** [handleSendMessage] up to the [await] of the outbound call. *)
Definition sendStart (text : JS.jsstring)
  (attachmentName : option JS.jsstring) (now : N) (s : State) : State :=
  let userMsg :=
    mkMessage (JS.ofN now) text USER now
      (match attachmentName with
       | Some n => Some [n]
       | None => None
       end)
      None None in
  mkState (messages s ++ [userMsg]) true (activeTool s)
    (apiKeyMissing s) None.

(** [handleSendMessage] after the call resolved with [response]. *)
Definition sendResolved (response : Response) (now : N) (s : State)
  : State :=
  let aiMsg :=
    mkMessage (JS.ofN (now + 1))
      (match answer response with
       | Some a => if JS.truthy a then a else JS.str "System Error"
       | None => JS.str "System Error"
       end)
      AI now None (responseSuggested response)
      (responseRelated response) in
  let lowerText := lowerTextOf (answer response) in
  mkState (messages s ++ [aiMsg]) false (activeTool s) (apiKeyMissing s)
    (match suggest lowerText with
     | Some t => Some t
     | None => suggestedTool s
     end).


(** One user turn whose call resolved. *)
Definition turn (text : JS.jsstring) (attachmentName : option JS.jsstring)
  (sent : N) (response : Response) (received : N) (s : State) : State :=
  sendResolved response received (sendStart text attachmentName sent s).

End Suggestion.

(** *** The heuristic, as the specification words it *)

Definition fitIndexTerms : list JS.jsstring :=
  [JS.str "cfi"; JS.str "rmsea"; JS.str "fit index"].
Definition apaTableTerms : list JS.jsstring :=
  [JS.str "apa table"; thaiTable].
Definition syntaxTerms : list JS.jsstring :=
  [JS.str "jamovi"; JS.str "syntax"; JS.str "code"].

(** The keyword sets in priority order, each with its tool panel. *)
Definition keywordSets : list (list JS.jsstring * ToolMode) :=
  [(fitIndexTerms, FIT_CHECKER);
   (apaTableTerms, APA_TABLE);
   (syntaxTerms, JAMOVI)].

Definition matches (lowerText : JS.jsstring) (terms : list JS.jsstring)
  : bool := existsb (JS.includes lowerText) terms.

(** The panel of the first set with a keyword in the text. *)
Definition firstMatchingSet (lowerText : JS.jsstring) : option ToolMode :=
  option_map snd
    (List.find (fun ks => matches lowerText (fst ks)) keywordSets).

(** *** The suggestion prompt and the tool tabs *)







End App.


(** ** ChatPanel: the input form *)

Module ChatPanel.

(** The component's cells; a selected file is known by its name. *)
Record State : Type := mkState {
  input : JS.jsstring;
  selectedFile : option JS.jsstring;
  copiedId : option JS.jsstring
}.

(** [(!input.trim() && !selectedFile) || isLoading]: the guard of
    [handleSubmit] and the [disabled] attribute of the submit button. *)
Definition submitDisabled (isLoading : bool) (s : State) : bool :=
  (negb (JS.truthy (JS.trim (input s))) && negb (JS.defined (selectedFile s)))
  || isLoading.

(** [handleSubmit]: the call of [onSendMessage], if any, and the next
    state. *)
Definition handleSubmit (isLoading : bool) (s : State)
  : option (JS.jsstring * option JS.jsstring) * State :=
  if (negb (JS.truthy (JS.trim (input s)))
      && negb (JS.defined (selectedFile s)))
     || isLoading
  then (None, s)
  else (Some (input s, selectedFile s), mkState [] None (copiedId s)).

(** The form and [App] together: a submit at time [now].  The read of an
    attached file, which [handleSendMessage] awaits before it changes the
    state, is not a step here; the form has cleared itself by then. *)
Definition submit (now : N) (c : State) (a : App.State)
  : State * App.State :=
  match handleSubmit (App.isLoading a) c with
  | (Some (text, file), c') => (c', App.sendStart text file now a)
  | (None, c') => (c', a)
  end.

End ChatPanel.



(** * Properties *)

(** ** Strings and arrays *)

Lemma JS_eqb_eq (a b : JS.jsstring) : JS.eqb a b = true <-> a = b.
Proof.
  revert b; induction a as [|x a IH]; intros [|y b]; simpl; split;
    try congruence; try reflexivity.
  - intros H. apply andb_true_iff in H as [Hx Hab].
    apply N.eqb_eq in Hx. apply IH in Hab. congruence.
  - intros H. injection H as -> ->.
    rewrite N.eqb_refl. simpl. now apply IH.
Qed.

Lemma JS_eqb_refl (a : JS.jsstring) : JS.eqb a a = true.
Proof. now apply JS_eqb_eq. Qed.

Lemma JS_eqb_neq (a b : JS.jsstring) : a <> b -> JS.eqb a b = false.
Proof.
  intros H. destruct (JS.eqb a b) eqn:E; [|reflexivity].
  apply JS_eqb_eq in E. contradiction.
Qed.

Lemma JS_eqb_sym (a b : JS.jsstring) : JS.eqb a b = JS.eqb b a.
Proof.
  destruct (JS.eqb a b) eqn:E.
  - apply JS_eqb_eq in E. subst. now rewrite JS_eqb_refl.
  - destruct (JS.eqb b a) eqn:E'; [|reflexivity].
    apply JS_eqb_eq in E'. subst. now rewrite JS_eqb_refl in E.
Qed.

(** A [forEach] that only appends to an accumulator. *)
Lemma fold_left_append {A} (f : A -> JS.jsstring) (xs : list A)
  (acc : JS.jsstring) :
  fold_left (fun a x => a ++ f x) xs acc = acc ++ List.concat (map f xs).
Proof.
  revert acc; induction xs as [|x xs IH]; intros acc; simpl.
  - now rewrite app_nil_r.
  - now rewrite IH, <- app_assoc.
Qed.

Lemma slice_drop_last {A} (xs : list A) (x : A) :
  JS.slice (xs ++ [x]) 0 (-1) = xs.
Proof.
  unfold JS.slice, JS.clampIndex. simpl.
  rewrite length_app. simpl.
  replace (Z.to_nat (Z.max (Z.of_nat (List.length xs + 1) + -1) 0))
    with (List.length xs) by lia.
  rewrite Nat.sub_0_r. rewrite firstn_app, firstn_all, Nat.sub_diag.
  simpl. now rewrite app_nil_r.
Qed.

Lemma filter_nil_existsb {A} (p : A -> bool) (xs : list A) :
  existsb p xs = negb (List.length (filter p xs) =? 0)%nat.
Proof.
  induction xs as [|x xs IH]; simpl; [reflexivity|].
  destruct (p x); simpl; [reflexivity|exact IH].
Qed.

(** ** The diagram editor *)

Section EditorFacts.
Import ModelPreview.

(** The callback of [links.some] decides the equivalence of the
    specification. *)
Lemma some_equivalentLink_iff (src tgt : JS.jsstring) (k : LinkType)
  (ls : list Link) :
  JS.some (equivalentLink src tgt k) ls = true <-> hasEquivalent src tgt k ls.
Proof.
  unfold JS.some, hasEquivalent. rewrite existsb_exists.
  split; intros [l [Hin H]]; exists l; split; try exact Hin.
  - unfold equivalentLink in H. apply orb_true_iff in H as [H|H].
    + apply andb_true_iff in H as [H1 H2].
      left. split; now apply JS_eqb_eq.
    + apply andb_true_iff in H as [H H3].
      apply andb_true_iff in H as [H1 H2].
      right. destruct k; [discriminate|].
      repeat split; now apply JS_eqb_eq.
  - unfold equivalentLink. destruct H as [[H1 H2]|[Hk [H1 H2]]].
    + subst. now rewrite !JS_eqb_refl.
    + subst. simpl. rewrite !JS_eqb_refl. apply orb_true_r.
Qed.

(** What a second click on another node does to the store and to the
    pending source. *)
Lemma handleNodeClick_second (s : State) (a b : JS.jsstring) :
  interactionMode s = link -> linkingSourceId s = Some a -> a <> b ->
  handleNodeClick b s =
  setTempLineEnd None (setLinkingSourceId None
    (if JS.some (equivalentLink a b (linkType s)) (links s) then s
     else setLinks (links s ++ [mkLink a b (Some (linkType s))]) s)).
Proof.
  intros Hm Hp Hab. unfold handleNodeClick. rewrite Hm, Hp.
  rewrite (JS_eqb_neq _ _ Hab). simpl.
  now destruct (JS.some _ _).
Qed.

(** Two clicks, on [a] then on [b], from a state with no pending source. *)
Lemma click_pair (s : State) (a b : JS.jsstring) :
  interactionMode s = link -> linkingSourceId s = None -> a <> b ->
  let s' := step (NodeClick b) (step (NodeClick a) s) in
  links s' =
    (if JS.some (equivalentLink a b (linkType s)) (links s) then links s
     else links s ++ [mkLink a b (Some (linkType s))])
  /\ interactionMode s' = link /\ linkingSourceId s' = None
  /\ linkType s' = linkType s /\ nodes s' = nodes s.
Proof.
  intros Hm Hp Hab.
  assert (E : step (NodeClick a) s
              = syntaxEffect (setLinkingSourceId (Some a) s)).
  { unfold step. cbn [handle]. unfold handleNodeClick. now rewrite Hm, Hp. }
  rewrite E. clear E. unfold step. cbn [handle].
  rewrite (handleNodeClick_second _ a b); [| exact Hm | reflexivity | exact Hab].
  unfold JS.some. destruct (existsb _ _); cbn; auto.
Qed.

Lemma linksBetween_app (a b : JS.jsstring) (xs ys : list Link) :
  linksBetween a b (xs ++ ys) = linksBetween a b xs ++ linksBetween a b ys.
Proof. apply filter_app. Qed.

Lemma some_equivalent_directed (a b : JS.jsstring) (ls : list Link) :
  JS.some (equivalentLink a b directed) ls
  = negb (List.length (linksBetween a b ls) =? 0)%nat.
Proof.
  unfold linksBetween. rewrite <- filter_nil_existsb.
  unfold JS.some. induction ls as [|l ls IH]; [reflexivity|].
  simpl. rewrite IH. unfold equivalentLink at 1. simpl.
  now rewrite orb_false_r.
Qed.

Lemma some_equivalent_covariance (a b : JS.jsstring) (ls : list Link) :
  JS.some (equivalentLink a b covariance) ls
  = negb (List.length (linksBetween a b ls) =? 0)%nat
    || negb (List.length (linksBetween b a ls) =? 0)%nat.
Proof.
  unfold linksBetween. rewrite <- !filter_nil_existsb.
  unfold JS.some. induction ls as [|l ls IH]; [reflexivity|].
  simpl. rewrite IH. unfold equivalentLink at 1. simpl.
  destruct (JS.eqb (source l) a && JS.eqb (target l) b),
           (JS.eqb (source l) b && JS.eqb (target l) a); simpl;
    rewrite ?orb_true_r; reflexivity.
Qed.

Lemma linksBetween_same (a b : JS.jsstring) (k : option LinkType) :
  linksBetween a b [mkLink a b k] = [mkLink a b k].
Proof. unfold linksBetween. simpl. now rewrite !JS_eqb_refl. Qed.

Lemma linksBetween_reversed (a b : JS.jsstring) (k : option LinkType) :
  a <> b -> linksBetween b a [mkLink a b k] = [].
Proof.
  intros H. unfold linksBetween. simpl. now rewrite (JS_eqb_neq _ _ H).
Qed.

(** C1. In link mode, a second click on a node [b] other than the pending
    source [a] appends the link from [a] to [b] of the current kind, unless
    the store holds an equivalent link (same source and target, or, for a
    covariance, the reversed pair), in which case the store is unchanged.
    Creating the directed link from [a] to [b] twice leaves exactly one such
    link; creating the covariance from [a] to [b] and then attempting the one
    from [b] to [a] leaves exactly one link between the two. *)
Theorem second_click_adds_link_unless_equivalent
  (s : State) (a b : JS.jsstring) :
  interactionMode s = link -> a <> b ->
  (linkingSourceId s = Some a ->
     (hasEquivalent a b (linkType s) (links s) ->
        links (handleNodeClick b s) = links s)
     /\ (~ hasEquivalent a b (linkType s) (links s) ->
        links (handleNodeClick b s)
        = links s ++ [mkLink a b (Some (linkType s))]))
  /\ (linkingSourceId s = None -> linkType s = directed ->
      (List.length (linksBetween a b (links s)) <= 1)%nat ->
      let s' := run [NodeClick a; NodeClick b; NodeClick a; NodeClick b] s in
      List.length (linksBetween a b (links s')) = 1%nat
      /\ List.length (links s')
         = (List.length (links s)
            + (1 - List.length (linksBetween a b (links s))))%nat)
  /\ (linkingSourceId s = None -> linkType s = covariance ->
      (List.length (linksBetween a b (links s))
       + List.length (linksBetween b a (links s)) <= 1)%nat ->
      let s' := run [NodeClick a; NodeClick b; NodeClick b; NodeClick a] s in
      (List.length (linksBetween a b (links s'))
       + List.length (linksBetween b a (links s')) = 1)%nat
      /\ List.length (links s')
         = (List.length (links s)
            + (1 - (List.length (linksBetween a b (links s))
                    + List.length (linksBetween b a (links s)))))%nat).
Proof.
  intros Hm Hab. split; [|split].
  - intros Hp. rewrite (handleNodeClick_second s a b Hm Hp Hab).
    split; intros H.
    + apply some_equivalentLink_iff in H. rewrite H. reflexivity.
    + destruct (JS.some _ _) eqn:E; [|reflexivity].
      apply some_equivalentLink_iff in E. contradiction.
  - intros Hp Hk Hle. cbv zeta. unfold run. cbn [fold_left].
    destruct (click_pair s a b Hm Hp Hab) as (L1 & M1 & P1 & K1 & _).
    set (s2 := step (NodeClick b) (step (NodeClick a) s)) in *.
    destruct (click_pair s2 a b M1 P1 Hab) as (L2 & _).
    rewrite L2, K1, L1, Hk. clear L2.
    rewrite !some_equivalent_directed.
    destruct (List.length (linksBetween a b (links s))) as [|[|n]] eqn:E;
      [| |lia]; cbn [Nat.eqb negb].
    + rewrite linksBetween_app, linksBetween_same, length_app, E. simpl.
      rewrite linksBetween_app, linksBetween_same, !length_app, E. simpl.
      split; lia.
    + rewrite E. simpl. rewrite E. split; lia.
  - intros Hp Hk Hle. cbv zeta. unfold run. cbn [fold_left].
    destruct (click_pair s a b Hm Hp Hab) as (L1 & M1 & P1 & K1 & _).
    set (s2 := step (NodeClick b) (step (NodeClick a) s)) in *.
    assert (Hba : b <> a) by congruence.
    destruct (click_pair s2 b a M1 P1 Hba) as (L2 & _).
    rewrite L2, K1, L1, Hk. clear L2.
    rewrite !some_equivalent_covariance.
    destruct (List.length (linksBetween a b (links s))) as [|n] eqn:Eab;
    destruct (List.length (linksBetween b a (links s))) as [|m] eqn:Eba;
      cbn [Nat.eqb negb orb].
    + rewrite !linksBetween_app, linksBetween_same,
        (linksBetween_reversed a b _ Hab), !length_app, Eab, Eba. simpl.
      rewrite !linksBetween_app, linksBetween_same,
        (linksBetween_reversed a b _ Hab), !length_app, Eab, Eba. simpl.
      split; lia.
    + rewrite Eab, Eba. simpl. rewrite Eab, Eba. split; lia.
    + rewrite Eab, Eba. simpl. rewrite Eab, Eba. split; lia.
    + lia.
Qed.

(** The default graph in link mode.  With Leadership pending, a click on
    Quality adds the third link; linking Leadership to Quality twice, or as
    a covariance in both directions, leaves one link between the two. *)
Lemma second_click_adds_link_unless_equivalent_witness :
  let s0 := clickLinkMode
              (initialState App.defaultNodes App.defaultLinks false) in
  let a := JS.str "1" in
  let b := JS.str "2" in
  links (handleNodeClick b (setLinkingSourceId (Some a) s0))
  = App.defaultLinks ++ [mkLink a b (Some directed)]
  /\ List.length
       (linksBetween a b
          (links (run [NodeClick a; NodeClick b; NodeClick a; NodeClick b]
                      s0))) = 1%nat
  /\ (List.length
        (linksBetween a b
           (links (run [NodeClick a; NodeClick b; NodeClick b; NodeClick a]
                       (setLinkType covariance s0))))
      + List.length
          (linksBetween b a
             (links (run [NodeClick a; NodeClick b; NodeClick b; NodeClick a]
                         (setLinkType covariance s0)))) = 1)%nat.
Proof.
  intros s0 a b.
  assert (Hab : a <> b) by discriminate.
  split; [|split].
  - refine (proj2 (proj1 (second_click_adds_link_unless_equivalent
                            (setLinkingSourceId (Some a) s0) a b eq_refl Hab)
                         eq_refl) _).
    intros [l [Hin [[H1 H2]|[H1 _]]]]; [|discriminate].
    simpl in Hin. destruct Hin as [<-|[<-|[]]]; discriminate.
  - refine (proj1 (proj1 (proj2 (second_click_adds_link_unless_equivalent
                                   s0 a b eq_refl Hab))
                         eq_refl eq_refl _)).
    simpl. lia.
  - refine (proj1 (proj2 (proj2 (second_click_adds_link_unless_equivalent
                                   (setLinkType covariance s0) a b
                                   eq_refl Hab))
                         eq_refl eq_refl _)).
    simpl. lia.
Defined.

(** The rule looks at the kind being created only: after the covariance from
    Leadership to Quality, the directed link from Quality to Leadership is
    accepted. *)
Lemma directed_reverse_after_covariance :
  let s0 := setLinkType covariance
              (clickLinkMode
                 (initialState App.defaultNodes App.defaultLinks false)) in
  let a := JS.str "1" in
  let b := JS.str "2" in
  links (run [NodeClick a; NodeClick b; ClickLinkType directed;
              NodeClick b; NodeClick a] s0)
  = App.defaultLinks
    ++ [mkLink a b (Some covariance); mkLink b a (Some directed)].
Proof. reflexivity. Qed.

(** *** The mermaid text *)

Lemma replaceAllWhiteSpace_sanitize (lbl : JS.jsstring) :
  JS.replaceAllWhiteSpace [JS.underscore] lbl = sanitize lbl.
Proof.
  induction lbl as [|c lbl IH]; simpl; [reflexivity|].
  now destruct (JS.isWhiteSpace c); rewrite IH.
Qed.

Lemma appendNode_declaration (syntax : JS.jsstring) (n : Node) :
  appendNode syntax n = syntax ++ nodeDeclaration n.
Proof.
  unfold appendNode, nodeDeclaration. rewrite replaceAllWhiteSpace_sanitize.
  now destruct (type n).
Qed.

Lemma appendLink_declaration (syntax : JS.jsstring) (l : Link) :
  appendLink syntax l = syntax ++ linkDeclaration l.
Proof.
  unfold appendLink, linkDeclaration.
  now destruct (linkKind l) as [[|]|].
Qed.

Lemma forEach_appendNode (ns : list Node) (syntax : JS.jsstring) :
  fold_left appendNode ns syntax
  = syntax ++ List.concat (map nodeDeclaration ns).
Proof.
  revert syntax; induction ns as [|n ns IH]; intros syntax; simpl.
  - now rewrite app_nil_r.
  - now rewrite IH, appendNode_declaration, <- app_assoc.
Qed.

Lemma forEach_appendLink (ls : list Link) (syntax : JS.jsstring) :
  fold_left appendLink ls syntax
  = syntax ++ List.concat (map linkDeclaration ls).
Proof.
  revert syntax; induction ls as [|l ls IH]; intros syntax; simpl.
  - now rewrite app_nil_r.
  - now rewrite IH, appendLink_declaration, <- app_assoc.
Qed.

Lemma classDefs_declarations (dark : bool) :
  classDefs dark
  = classDeclaration latent dark ++ classDeclaration observed dark.
Proof. now destruct dark. Qed.

Lemma sanitize_no_whitespace (lbl : JS.jsstring) :
  Forall (fun c => JS.isWhiteSpace c = false) (sanitize lbl).
Proof.
  induction lbl as [|c lbl IH]; simpl; constructor; try exact IH.
  now destruct (JS.isWhiteSpace c) eqn:E.
Qed.

(** C2. The mermaid text is a function of the node list, the link list and
    the theme flag alone: two runs of the effect on states that agree on
    these three, whatever the rest of the editor state (the text of the
    previous run included), leave the same text. *)
Theorem mermaid_syntax_deterministic (s1 s2 : State) :
  nodes s1 = nodes s2 -> links s1 = links s2 ->
  isDarkMode s1 = isDarkMode s2 ->
  mermaidSyntax (syntaxEffect s1) = mermaidSyntax (syntaxEffect s2).
Proof.
  intros Hn Hl Hd. unfold syntaxEffect. cbn [mermaidSyntax setMermaidSyntax].
  now rewrite Hn, Hl, Hd.
Qed.

(** The default graph seen from two editor states that differ in every cell
    but the three inputs. *)
Lemma mermaid_syntax_deterministic_witness :
  let s1 := initialState App.defaultNodes App.defaultLinks true in
  let s2 := run [ClickViewMode mermaid; ClickLinkMode;
                 ClickLinkType covariance; NodeClick (JS.str "2");
                 MouseMove 10 20 0 0; ChangeNodeType observed;
                 ChangeNewNodeLabel (JS.str "Trust")] s1 in
  mermaidSyntax (syntaxEffect s1) = mermaidSyntax (syntaxEffect s2).
Proof.
  intros s1 s2.
  exact (mermaid_syntax_deterministic s1 s2 eq_refl eq_refl eq_refl).
Defined.

(** C3. The text is the graph header, the two class definitions of the
    theme, one declaration for each node in node-list order, then one for
    each link in link-list order.  A node declaration is the id, the
    sanitized label (each whitespace code unit replaced by the underscore,
    the others kept in place, so none is left) inside the rounded marker for
    a latent node and the rectangular one for an observed node, and the class
    of the node's kind; a link declaration has the single arrow, or the
    double arrow for a covariance. *)
Theorem generateSyntax_declarations
  (ns : list Node) (ls : list Link) (dark : bool) :
  generateSyntax ns ls dark
  = JS.str "graph LR" ++ [JS.nl]
    ++ classDeclaration latent dark ++ classDeclaration observed dark
    ++ List.concat (map nodeDeclaration ns)
    ++ List.concat (map linkDeclaration ls)
  /\ (forall n, In n ns ->
        JS.replaceAllWhiteSpace [JS.underscore] (label n) = sanitize (label n)
        /\ List.length (sanitize (label n)) = List.length (label n)
        /\ Forall (fun c => JS.isWhiteSpace c = false) (sanitize (label n))
        /\ nodeDeclaration n
           = id n
             ++ (match type n with
                 | latent =>
                     JS.str "((" ++ sanitize (label n) ++ JS.str "))"
                     ++ JS.str ":::latent"
                 | observed =>
                     JS.str "[" ++ sanitize (label n) ++ JS.str "]"
                     ++ JS.str ":::observed"
                 end)
             ++ [JS.nl])
  /\ (forall l, In l ls ->
        linkDeclaration l
        = source l
          ++ (match linkKind l with
              | Some covariance => JS.str " <--> "
              | Some directed | None => JS.str " --> "
              end)
          ++ target l ++ [JS.nl]).
Proof.
  split; [|split].
  - unfold generateSyntax. cbv zeta.
    rewrite forEach_appendLink, forEach_appendNode, classDefs_declarations.
    now rewrite <- !app_assoc.
  - intros n _. repeat split.
    + apply replaceAllWhiteSpace_sanitize.
    + apply length_map.
    + apply sanitize_no_whitespace.
    + unfold nodeDeclaration, shapeMarker.
      destruct (type n); simpl; now rewrite <- !app_assoc.
  - intros l _. unfold linkDeclaration, arrowMarker.
    now destruct (linkKind l) as [[|]|].
Qed.

(** The default graph with a spaced label, an observed node and a
    covariance. *)
Lemma generateSyntax_declarations_witness :
  let n := mkNode (JS.str "4") (JS.str "Job  Satisfaction") observed 10 10 in
  let l := mkLink (JS.str "4") (JS.str "1") (Some covariance) in
  nodeDeclaration n = JS.str "4[Job__Satisfaction]:::observed" ++ [JS.nl]
  /\ linkDeclaration l = JS.str "4 <--> 1" ++ [JS.nl].
Proof.
  intros n l.
  pose proof (generateSyntax_declarations
                (App.defaultNodes ++ [n]) (App.defaultLinks ++ [l]) false)
    as (_ & Hn & Hl).
  split.
  - rewrite (proj2 (proj2 (proj2 (Hn n ltac:(simpl; tauto))))). reflexivity.
  - rewrite (Hl l ltac:(simpl; tauto)). reflexivity.
Defined.

(** *** Undo and clear *)

(** C4. On a non-empty link list, "undo last link" removes the link
    appended last and keeps the earlier ones in order, touching nothing
    else; on an empty list it returns the state it was given, the list still
    empty. *)
Theorem removeLastLink_pops (s : State) :
  (forall ls l, links s = ls ++ [l] ->
     removeLastLink s = setLinks ls s /\ links (removeLastLink s) = ls)
  /\ (links s = [] ->
      removeLastLink s = s /\ links (removeLastLink s) = []).
Proof.
  split.
  - intros ls l H. unfold removeLastLink. rewrite H, length_app. simpl.
    replace (0 <? List.length ls + 1)%nat with true
      by (symmetry; apply Nat.ltb_lt; lia).
    rewrite slice_drop_last. split; reflexivity.
  - intros H. unfold removeLastLink. rewrite H. simpl. split; [reflexivity|exact H].
Qed.

(** Undo on the default graph, twice, then once more on the empty list. *)
Lemma removeLastLink_pops_witness :
  let s := initialState App.defaultNodes App.defaultLinks false in
  links (removeLastLink s) = [mkLink (JS.str "1") (JS.str "3") (Some directed)]
  /\ removeLastLink (removeLastLink (removeLastLink s))
     = removeLastLink (removeLastLink s).
Proof.
  intros s. split.
  - exact (proj2 (proj1 (removeLastLink_pops s)
                    [mkLink (JS.str "1") (JS.str "3") (Some directed)]
                    (mkLink (JS.str "2") (JS.str "3") (Some directed))
                    eq_refl)).
  - exact (proj1 (proj2 (removeLastLink_pops
                           (removeLastLink (removeLastLink s))) eq_refl)).
Defined.

(** C6. "Clear all links" empties the link list exactly when the
    confirmation is accepted: accepted, the list is empty and nothing else
    changed; declined, the whole editor state is the one before. *)
Theorem clearAllLinks_iff_confirmed (confirmed : bool) (s : State) :
  (confirmed = true -> clearAllLinks confirmed s = setLinks [] s)
  /\ (confirmed = false -> clearAllLinks confirmed s = s)
  /\ (links s <> [] ->
      (links (clearAllLinks confirmed s) = [] <-> confirmed = true)).
Proof.
  destruct confirmed; simpl; repeat split; try reflexivity; try discriminate.
  intros E. contradiction.
Qed.

(** The default graph, the confirmation accepted and declined. *)
Lemma clearAllLinks_iff_confirmed_witness :
  let s := initialState App.defaultNodes App.defaultLinks false in
  links (clearAllLinks true s) = [] /\ clearAllLinks false s = s
  /\ (links (clearAllLinks false s) = [] <-> false = true).
Proof.
  intros s. split; [|split].
  - exact (f_equal links
             (proj1 (clearAllLinks_iff_confirmed true s) eq_refl)).
  - exact (proj1 (proj2 (clearAllLinks_iff_confirmed false s)) eq_refl).
  - refine (proj2 (proj2 (clearAllLinks_iff_confirmed false s)) _).
    discriminate.
Defined.

(** *** The link layer *)

Lemma nodeWithId_hasNode (ns : list Node) (i : JS.jsstring) :
  hasNode ns i = JS.defined (nodeWithId ns i).
Proof.
  unfold hasNode, nodeWithId. induction ns as [|n ns IH]; simpl.
  - reflexivity.
  - destruct (JS.eqb (id n) i); simpl; [reflexivity|exact IH].
Qed.

(** The callback never reads a property of [undefined]: the guard returns
    first. *)
Lemma renderLink_normal (ns : list Node) (dark : bool) (l : Link)
  (idx : nat) :
  renderLink ns dark l idx =
  JS.Normal
    (match nodeWithId ns (source l), nodeWithId ns (target l) with
     | Some src, Some tgt => Some (lineBetween dark l idx src tgt)
     | _, _ => None
     end).
Proof.
  unfold renderLink, JS.find, nodeWithId.
  destruct (List.find _ ns) as [src|]; simpl; [|reflexivity].
  destruct (List.find _ ns) as [tgt|]; simpl; reflexivity.
Qed.

Lemma mapiFromM_renderLink (ns : list Node) (dark : bool) (ls : list Link) :
  forall i,
  exists elems,
    JS.mapiFromM i (renderLink ns dark) ls = JS.Normal elems
    /\ List.length elems = List.length ls
    /\ forall k l, nth_error ls k = Some l ->
         JS.Normal (nth k elems None) = renderLink ns dark l (i + k).
Proof.
  induction ls as [|l ls IH]; intros i.
  - exists []. repeat split. intros [|k] l' H; discriminate.
  - destruct (IH (S i)) as (elems & E & Hlen & Hnth).
    simpl. rewrite renderLink_normal. simpl. rewrite E. simpl.
    eexists. split; [reflexivity|]. split; [simpl; now rewrite Hlen|].
    intros [|k] l' H; simpl in *.
    + injection H as <-. rewrite renderLink_normal, Nat.add_0_r. reflexivity.
    + rewrite (Hnth k l' H). f_equal. lia.
Qed.

(** C5. Rendering the link layer returns normally for every graph, with
    one entry for each link: [null] for a link with an endpoint that names
    no node, and a line between the anchors of the two nodes found for a link
    whose endpoints both exist. *)
Theorem renderLinkLayer_skips_dangling (s : State) :
  exists elems,
    renderLinkLayer s = JS.Normal elems
    /\ List.length elems = List.length (links s)
    /\ forall idx l, nth_error (links s) idx = Some l ->
         (dangling (nodes s) l = true -> nth_error elems idx = Some None)
         /\ (dangling (nodes s) l = false ->
             exists src tgt,
               nodeWithId (nodes s) (source l) = Some src
               /\ nodeWithId (nodes s) (target l) = Some tgt
               /\ nth_error elems idx
                  = Some (Some (lineBetween (isDarkMode s) l idx src tgt))).
Proof.
  destruct (mapiFromM_renderLink (nodes s) (isDarkMode s) (links s) 0)
    as (elems & E & Hlen & Hnth).
  exists elems. split; [exact E|]. split; [exact Hlen|].
  intros idx l H.
  assert (Hidx : (idx < List.length elems)%nat).
  { rewrite Hlen. apply nth_error_Some. congruence. }
  specialize (Hnth idx l H). rewrite renderLink_normal in Hnth.
  injection Hnth as Hnth. simpl in Hnth.
  rewrite (nth_error_nth' elems None Hidx), Hnth.
  unfold dangling. rewrite !nodeWithId_hasNode.
  destruct (nodeWithId (nodes s) (source l)) as [src|];
    destruct (nodeWithId (nodes s) (target l)) as [tgt|]; simpl;
    split; intros D; try discriminate; try reflexivity.
  exists src, tgt. repeat split.
Qed.

(** The default graph with a link to a node that does not exist: two lines
    and a skipped entry. *)
Lemma renderLinkLayer_skips_dangling_witness :
  let s := initialState App.defaultNodes
             (App.defaultLinks
              ++ [mkLink (JS.str "2") (JS.str "9") (Some covariance)])
             false in
  exists elems,
    renderLinkLayer s = JS.Normal elems
    /\ nth_error elems 2 = Some None
    /\ exists line, nth_error elems 0 = Some (Some line)
                    /\ x1 line == 100 /\ y1 line == 75
                    /\ x2 line == 200 /\ y2 line == 225.
Proof.
  intros s.
  destruct (renderLinkLayer_skips_dangling s) as (elems & E & _ & H).
  exists elems. split; [exact E|]. split.
  - exact (proj1 (H 2%nat _ eq_refl) eq_refl).
  - destruct (proj2 (H 0%nat _ eq_refl) eq_refl)
      as (src & tgt & Hs & Ht & Hl).
    injection Hs as <-. injection Ht as <-.
    eexists. split; [exact Hl|]. repeat split; reflexivity.
Defined.

(** *** The interaction state machine *)

Lemma handleNodeClick_nodes (i : JS.jsstring) (s : State) :
  nodes (handleNodeClick i s) = nodes s.
Proof.
  unfold handleNodeClick.
  destruct (interactionMode s); [reflexivity|].
  destruct (linkingSourceId s) as [src|]; [|reflexivity].
  destruct (JS.eqb src i); simpl; [reflexivity|].
  now destruct (JS.some _ _).
Qed.

(** In move mode a node click changes nothing. *)
Lemma handleNodeClick_move (i : JS.jsstring) (s : State) :
  interactionMode s = move -> handleNodeClick i s = s.
Proof. intros H. unfold handleNodeClick. now rewrite H. Qed.

(** Every handler keeps: a pending source is there only in link mode. *)
Lemma handle_keeps_pending_in_link_mode (e : Event) (s : State) :
  (linkingSourceId s <> None -> interactionMode s = link) ->
  linkingSourceId (handle e s) <> None -> interactionMode (handle e s) = link.
Proof.
  destruct s as [ns ls dk lbl nt ms vm im lt ps tle].
  cbn [linkingSourceId interactionMode]. intros Inv.
  destruct e; cbn [handle]; try exact Inv;
    try (cbn; intros H; now contradiction H).
  - (* undo *)
    unfold removeLastLink. destruct (_ <? _)%nat; exact Inv.
  - (* clear *)
    unfold clearAllLinks. destruct confirmed; exact Inv.
  - (* pointer move *)
    unfold handleMouseMove. cbn [linkingSourceId interactionMode].
    destruct im; [exact Inv|].
    destruct ps as [src|]; [|exact Inv].
    destruct (JS.truthy src); exact Inv.
  - (* node click *)
    unfold handleNodeClick. cbn [linkingSourceId interactionMode].
    destruct im; [exact Inv|].
    destruct ps as [src|]; [|reflexivity].
    destruct (JS.eqb src id0); cbn; intros H; now contradiction H.
  - (* drag *)
    unfold handleDragEnd. cbn [linkingSourceId interactionMode].
    destruct im; [|exact Inv].
    destruct rect; exact Inv.
  - (* add *)
    unfold addNode. destruct (negb _); exact Inv.
  - (* storage *)
    unfold restoreFromStorage.
    destruct savedNodes, savedLinks, savedDark; exact Inv.
Qed.

Lemma reachable_pending_in_link_mode (s : State) :
  reachable s -> linkingSourceId s <> None -> interactionMode s = link.
Proof.
  induction 1 as [ns ls dark|e s _ IH].
  - cbn. intros H. now contradiction H.
  - unfold step, syntaxEffect.
    cbn [linkingSourceId interactionMode setMermaidSyntax].
    now apply handle_keeps_pending_in_link_mode.
Qed.

(** C9. In every reachable state of the editor a pending source node
    implies link mode; either mode button leaves no pending source; and from
    a state in move mode no event leaves one. *)
Theorem pending_source_only_in_link_mode (s : State) :
  reachable s ->
  (linkingSourceId s <> None -> interactionMode s = link)
  /\ linkingSourceId (step ClickMoveMode s) = None
  /\ linkingSourceId (step ClickLinkMode s) = None
  /\ (interactionMode s = move ->
      forall e, linkingSourceId (step e s) = None).
Proof.
  intros R. pose proof (reachable_pending_in_link_mode s R) as Inv.
  repeat split; try exact Inv.
  intros M e.
  assert (P : linkingSourceId s = None).
  { destruct (linkingSourceId s) eqn:P; [|reflexivity].
    rewrite Inv in M by discriminate. discriminate. }
  unfold step, syntaxEffect. cbn [linkingSourceId setMermaidSyntax].
  destruct e; cbn [handle]; try exact P; try reflexivity.
  - unfold removeLastLink. destruct (_ <? _)%nat; exact P.
  - unfold clearAllLinks. destruct confirmed; exact P.
  - unfold handleMouseMove. now rewrite M.
  - now rewrite handleNodeClick_move.
  - unfold handleDragEnd. rewrite M. destruct rect; exact P.
  - unfold addNode. destruct (negb _); exact P.
  - unfold restoreFromStorage.
    destruct savedNodes, savedLinks, savedDark; exact P.
Qed.

(** After the link button and a click on Leadership the source is pending
    and the mode is link; back in move mode, a click on a node sets none. *)
Lemma pending_source_only_in_link_mode_witness :
  let s0 := syntaxEffect
              (initialState App.defaultNodes App.defaultLinks false) in
  let s := run [ClickLinkMode; NodeClick (JS.str "1")] s0 in
  linkingSourceId s = Some (JS.str "1")
  /\ interactionMode s = link
  /\ linkingSourceId (step (NodeClick (JS.str "2")) (step ClickMoveMode s))
     = None.
Proof.
  intros s0 s.
  assert (R : reachable s).
  { unfold s, run. cbn [fold_left].
    do 2 apply reachable_step. apply reachable_mount. }
  split; [reflexivity|]. split.
  - refine (proj1 (pending_source_only_in_link_mode s R) _). discriminate.
  - exact (proj2 (proj2 (proj2
             (pending_source_only_in_link_mode (step ClickMoveMode s)
                (reachable_step _ _ R))))
             eq_refl (NodeClick (JS.str "2"))).
Defined.

(** *** Frame properties *)

(** C10. Link creation (one click or the two clicks of a link), undo and
    clear leave the node list as it was, and adding a node leaves the link
    list as it was. *)
Theorem link_operations_keep_nodes (s : State) :
  (forall i, nodes (handleNodeClick i s) = nodes s)
  /\ (forall a b, nodes (handleNodeClick b (handleNodeClick a s)) = nodes s)
  /\ nodes (removeLastLink s) = nodes s
  /\ (forall confirmed, nodes (clearAllLinks confirmed s) = nodes s)
  /\ (forall now r1 r2, links (addNode now r1 r2 s) = links s).
Proof.
  split; [|split; [|split; [|split]]].
  - intros i. apply handleNodeClick_nodes.
  - intros a b. now rewrite !handleNodeClick_nodes.
  - unfold removeLastLink. now destruct (_ <? _)%nat.
  - intros c. now destruct c.
  - intros now r1 r2. unfold addNode. now destruct (negb _).
Qed.

End EditorFacts.

(** ** The table generator *)

Section TableFacts.
Import ApaTableGenerator.

Lemma sliceFrom_1 {A} (xs : list A) : JS.sliceFrom xs 1 = tl xs.
Proof.
  unfold JS.sliceFrom, JS.slice, JS.clampIndex.
  destruct xs as [|x xs]; [reflexivity|].
  replace (Z.of_nat (List.length (x :: xs)) <? 0)%Z with false
    by (symmetry; apply Z.ltb_ge; lia).
  rewrite Nat2Z.id, Nat.min_id. simpl.
  rewrite Nat.sub_0_r. apply firstn_all.
Qed.

(** Membership in [indices], for the columns numbered from [k]. *)
Lemma indices_member (hidden hs : list JS.jsstring) :
  forall k i,
  JS.arrayIncludes Z.eqb
    (filter (fun j => negb (j =? -1)%Z)
       (JS.mapiFrom k
          (fun h j => if JS.arrayIncludes JS.eqb hidden h
                      then (-1)%Z else Z.of_nat j) hs))
    (Z.of_nat i)
  = match (if (k <=? i)%nat then nth_error hs (i - k) else None) with
    | Some h => visible hidden h
    | None => false
    end.
Proof.
  unfold JS.arrayIncludes.
  induction hs as [|h hs IH]; intros k i.
  - simpl. destruct (k <=? i)%nat; [|reflexivity].
    now destruct (i - k)%nat.
  - cbn [JS.mapiFrom filter]. unfold visible at 1.
    destruct (Nat.leb_spec k i) as [Hle|Hlt].
    + destruct (Nat.eq_dec i k) as [->|Hne].
      * rewrite Nat.sub_diag. cbn [nth_error]. unfold visible.
        destruct (existsb (JS.eqb h) hidden); cbn.
        -- rewrite IH. replace (S k <=? k)%nat with false; [reflexivity|].
           symmetry. apply Nat.leb_gt. lia.
        -- replace (Z.of_nat k =? -1)%Z with false
             by (symmetry; apply Z.eqb_neq; lia).
           cbn. now rewrite Z.eqb_refl.
      * replace (i - k)%nat with (S (i - S k)) by lia. cbn [nth_error].
        assert (E : (S k <=? i)%nat = true) by (apply Nat.leb_le; lia).
        specialize (IH (S k) i). rewrite E in IH.
        destruct (existsb (JS.eqb h) hidden); cbn.
        -- exact IH.
        -- replace (Z.of_nat k =? -1)%Z with false
             by (symmetry; apply Z.eqb_neq; lia).
           cbn. rewrite IH.
           replace (Z.of_nat i =? Z.of_nat k)%Z with false
             by (symmetry; apply Z.eqb_neq; lia).
           reflexivity.
    + assert (E : (S k <=? i)%nat = false) by (apply Nat.leb_gt; lia).
      specialize (IH (S k) i). rewrite E in IH.
      destruct (existsb (JS.eqb h) hidden); cbn.
      * exact IH.
      * replace (Z.of_nat k =? -1)%Z with false
          by (symmetry; apply Z.eqb_neq; lia).
        cbn. rewrite IH.
        replace (Z.of_nat i =? Z.of_nat k)%Z with false
          by (symmetry; apply Z.eqb_neq; lia).
        reflexivity.
Qed.

Lemma indices_includes (s : State) (i : nat) :
  JS.arrayIncludes Z.eqb (indices s) (Z.of_nat i)
  = match nth_error (allHeaders s) i with
    | Some h => visible (hiddenColumns s) h
    | None => false
    end.
Proof.
  unfold indices, JS.mapi. rewrite indices_member.
  simpl. now rewrite Nat.sub_0_r.
Qed.

(** The filter by index keeps the cells that stand under a visible
    header. *)
Lemma keepIndices_from (s : State) (xs : list JS.jsstring) :
  forall k,
  JS.filteriFrom k
    (fun _ i => JS.arrayIncludes Z.eqb (indices s) (Z.of_nat i)) xs
  = visibleCells (hiddenColumns s) (skipn k (allHeaders s)) xs.
Proof.
  unfold visibleCells.
  induction xs as [|x xs IH]; intros k.
  - simpl. now rewrite combine_nil.
  - cbn [JS.filteriFrom]. rewrite indices_includes, IH.
    destruct (nth_error (allHeaders s) k) as [h|] eqn:E.
    + assert (Hs : skipn k (allHeaders s) = h :: skipn (S k) (allHeaders s)).
      { clear -E. revert k E.
        induction (allHeaders s) as [|a l IHl]; intros [|k] E;
          try discriminate.
        - now injection E as ->.
        - simpl in *. now apply IHl. }
      rewrite Hs. simpl. now destruct (visible (hiddenColumns s) h).
    + apply nth_error_None in E.
      rewrite !skipn_all2 by lia. reflexivity.
Qed.

Lemma keepIndices_visibleCells (s : State) (xs : list JS.jsstring) :
  keepIndices (indices s) xs
  = visibleCells (hiddenColumns s) (allHeaders s) xs.
Proof. unfold keepIndices, JS.filteri. now rewrite keepIndices_from. Qed.

Lemma visibleCells_self (hidden hs : list JS.jsstring) :
  visibleCells hidden hs hs = filter (visible hidden) hs.
Proof.
  unfold visibleCells. induction hs as [|h hs IH]; simpl; [reflexivity|].
  destruct (visible hidden h); simpl; now rewrite IH.
Qed.

Lemma visibleCells_length (hidden hs row : list JS.jsstring) :
  (List.length (visibleCells hidden hs row) <= List.length row)%nat.
Proof.
  unfold visibleCells. rewrite length_map.
  etransitivity; [apply filter_length_le|].
  rewrite length_combine. lia.
Qed.

Lemma visibleCells_none_hidden (hs row : list JS.jsstring) :
  (List.length row <= List.length hs)%nat -> visibleCells [] hs row = row.
Proof.
  unfold visibleCells. revert hs.
  induction row as [|c row IH]; intros [|h hs] H; simpl in *;
    try reflexivity; try lia.
  rewrite IH by lia. reflexivity.
Qed.

Lemma filter_visible_none_hidden (hs : list JS.jsstring) :
  filter (visible []) hs = hs.
Proof.
  induction hs as [|h hs IH]; simpl; [reflexivity|]. now rewrite IH.
Qed.

Lemma header_visible (s : State) :
  header s = filter (visible (hiddenColumns s)) (allHeaders s).
Proof.
  unfold header, getVisibleData. cbn [fst].
  now rewrite keepIndices_visibleCells, visibleCells_self.
Qed.

Lemma body_visibleCells (s : State) :
  body s = map (visibleCells (hiddenColumns s) (allHeaders s)) (allBody s).
Proof.
  unfold body, getVisibleData. cbn [snd].
  apply map_ext. intros row. apply keepIndices_visibleCells.
Qed.

Lemma markdownTable_rows (s : State) :
  markdownTable s
  = JS.str "**"
    ++ JS.replaceFirst JS.nl (JS.str "**  " ++ [JS.nl] ++ JS.str "*") (title s)
    ++ JS.str "*" ++ [JS.nl; JS.nl]
    ++ markdownRow (header s)
    ++ markdownRow (map (fun _ => JS.str "---") (header s))
    ++ List.concat (map markdownRow (body s))
    ++ [JS.nl] ++ JS.str "*" ++ note s ++ JS.str "*".
Proof.
  unfold markdownTable. cbv zeta.
  change appendRow with (fun a row => a ++ markdownRow row).
  rewrite fold_left_append. unfold markdownRow.
  now rewrite <- !app_assoc.
Qed.

(** The table for the input of two lines, "A,B" and "1". *)
Lemma short_row_example :
  let s := mkState (JS.str "A,B" ++ [JS.nl] ++ JS.str "1") [] [] [] false in
  allHeaders s = [JS.str "A"; JS.str "B"]
  /\ allBody s = [[JS.str "1"]]
  /\ header s = [JS.str "A"; JS.str "B"]
  /\ body s = [[JS.str "1"]]
  /\ List.concat (map markdownRow (body s)) = JS.str "| 1 |" ++ [JS.nl].
Proof. intros s. repeat split. Qed.

(** C7, as stated, fails: for the input "A,B" / "1" the body row has
    the one cell "1", not "1" followed by an empty cell. *)
Lemma short_row_not_padded :
  ~ shortRowsPadded
      (mkState (JS.str "A,B" ++ [JS.nl] ++ JS.str "1") [] [] [] false).
Proof. unfold shortRowsPadded. intros H. vm_compute in H. discriminate H. Qed.

(** C7, amended. For every input, the header shown is the visible headers
    and each body row shown is the cells of that row that stand under a
    visible header; the preview, the Markdown text and the PDF table all show
    these rows.  A body row with fewer fields than the header row therefore
    gets no cell for a missing position: it is shown with at most the cells
    it has, and, with no column hidden, exactly as it is, shorter than the
    header.  All of these are total functions of the state: computing them
    raises no error. *)
Theorem short_rows_keep_their_cells (s : State) :
  header s = filter (visible (hiddenColumns s)) (allHeaders s)
  /\ body s = map (visibleCells (hiddenColumns s) (allHeaders s)) (allBody s)
  /\ preview s = mkTable (header s) (body s)
  /\ pdfTable s = ([header s], body s)
  /\ markdownTable s
     = JS.str "**"
       ++ JS.replaceFirst JS.nl (JS.str "**  " ++ [JS.nl] ++ JS.str "*")
            (title s)
       ++ JS.str "*" ++ [JS.nl; JS.nl]
       ++ markdownRow (header s)
       ++ markdownRow (map (fun _ => JS.str "---") (header s))
       ++ List.concat (map markdownRow (body s))
       ++ [JS.nl] ++ JS.str "*" ++ note s ++ JS.str "*"
  /\ (forall row, In row (allBody s) ->
      (List.length row < List.length (allHeaders s))%nat ->
      let shown := visibleCells (hiddenColumns s) (allHeaders s) row in
      In shown (body s)
      /\ (List.length shown <= List.length row)%nat
      /\ (hiddenColumns s = [] ->
          shown = row
          /\ (List.length shown < List.length (header s))%nat)).
Proof.
  split; [apply header_visible|].
  split; [apply body_visibleCells|].
  split.
  { unfold preview. rewrite map_id. f_equal.
    rewrite <- (map_id (body s)) at 2. apply map_ext. intros row.
    apply map_id. }
  split; [reflexivity|].
  split; [apply markdownTable_rows|].
  intros row Hin Hlt shown. split; [|split].
  - rewrite body_visibleCells. now apply in_map.
  - apply visibleCells_length.
  - intros Hh. unfold shown. rewrite header_visible, Hh.
    rewrite visibleCells_none_hidden by lia. split; [reflexivity|].
    now rewrite filter_visible_none_hidden.
Qed.

(** The short row of the example input is shown as it is. *)
Lemma short_rows_keep_their_cells_witness :
  let s := mkState (JS.str "A,B" ++ [JS.nl] ++ JS.str "1") [] [] [] false in
  let shown := visibleCells (hiddenColumns s) (allHeaders s) [JS.str "1"] in
  In shown (body s)
  /\ (List.length shown <= 1)%nat
  /\ shown = [JS.str "1"]
  /\ (List.length shown < List.length (header s))%nat.
Proof.
  intros s shown.
  destruct (proj2 (proj2 (proj2 (proj2 (proj2
              (short_rows_keep_their_cells s)))))
              [JS.str "1"] (or_introl eq_refl)
              (proj1 (Nat.ltb_lt 1 2) eq_refl)) as (H1 & H2 & H3).
  destruct (H3 eq_refl) as [H4 H5].
  exact (conj H1 (conj H2 (conj H4 H5))).
Defined.

(** The scenario of the specification: "A,B" / "1,2" with column A
    hidden shows the header B and the body row 2. *)
Lemma hidden_column_example :
  let s := mkState (JS.str "A,B" ++ [JS.nl] ++ JS.str "1,2") [] []
             [JS.str "A"] false in
  header s = [JS.str "B"] /\ body s = [[JS.str "2"]].
Proof. intros s. split; reflexivity. Qed.

End TableFacts.

(** ** The tool suggestion *)

Section SuggestionFacts.
Import App.

Variable toLowerCase : JS.jsstring -> JS.jsstring.

(** The chain of [if / else if] picks the first matching set. *)
Lemma suggest_firstMatchingSet (lowerText : JS.jsstring) :
  suggest lowerText = firstMatchingSet lowerText.
Proof.
  unfold suggest, firstMatchingSet, keywordSets, matches,
    fitIndexTerms, apaTableTerms, syntaxTerms.
  cbn [List.find existsb fst snd option_map].
  destruct (JS.includes lowerText (JS.str "cfi")),
           (JS.includes lowerText (JS.str "rmsea")),
           (JS.includes lowerText (JS.str "fit index")),
           (JS.includes lowerText (JS.str "apa table")),
           (JS.includes lowerText thaiTable),
           (JS.includes lowerText (JS.str "jamovi")),
           (JS.includes lowerText (JS.str "syntax")),
           (JS.includes lowerText (JS.str "code")); reflexivity.
Qed.

(** The suggestion left by a whole turn is the one of the reply alone: the
    turn starts by clearing the previous one. *)
Lemma turn_suggestedTool (text : JS.jsstring)
  (attachmentName : option JS.jsstring) (sent received : N)
  (response : Response) (s : State) :
  suggestedTool (turn toLowerCase text attachmentName sent response received s)
  = suggest (lowerTextOf toLowerCase (answer response)).
Proof.
  unfold turn, sendResolved, sendStart. cbn [suggestedTool].
  now destruct (suggest _).
Qed.

End SuggestionFacts.

(** C8. After a reply the heuristic checks the lowercased reply text
    against the keyword sets in the order fit-index terms, APA/table terms,
    syntax/software terms; the suggested panel is the one of the first set
    with a keyword in the text, and when no set matches the turn ends with
    no suggestion. *)
Theorem suggestion_is_first_matching_set
  (toLowerCase : JS.jsstring -> JS.jsstring)
  (text : JS.jsstring) (attachmentName : option JS.jsstring)
  (sent received : N) (response : App.Response) (s : App.State) :
  let lowerText := App.lowerTextOf toLowerCase (App.answer response) in
  let after :=
    App.turn toLowerCase text attachmentName sent response received s in
  App.suggestedTool after = App.firstMatchingSet lowerText
  /\ (App.matches lowerText App.fitIndexTerms = true ->
      App.suggestedTool after = Some FIT_CHECKER)
  /\ (App.matches lowerText App.fitIndexTerms = false ->
      App.matches lowerText App.apaTableTerms = true ->
      App.suggestedTool after = Some APA_TABLE)
  /\ (App.matches lowerText App.fitIndexTerms = false ->
      App.matches lowerText App.apaTableTerms = false ->
      App.matches lowerText App.syntaxTerms = true ->
      App.suggestedTool after = Some JAMOVI)
  /\ (App.matches lowerText App.fitIndexTerms = false ->
      App.matches lowerText App.apaTableTerms = false ->
      App.matches lowerText App.syntaxTerms = false ->
      App.suggestedTool after = None).
Proof.
  intros lowerText after.
  assert (E : App.suggestedTool after = App.firstMatchingSet lowerText).
  { unfold after. rewrite turn_suggestedTool.
    apply suggest_firstMatchingSet. }
  rewrite E. unfold App.firstMatchingSet, App.keywordSets.
  cbn [List.find fst snd].
  split; [reflexivity|].
  repeat split; intros; 
    repeat match goal with H : App.matches _ _ = _ |- _ => rewrite H; clear H end;
    reflexivity.
Qed.

(** Replies in ASCII, lowercased letter by letter: one that names an APA
    table and CFI suggests the fit checker, one with code and an APA table
    the table generator, one with only code the syntax helper, and one with
    no keyword nothing, whatever was suggested before. *)
Lemma suggestion_is_first_matching_set_witness :
  let s := App.mkState [] false CONCEPTUAL false (Some JAMOVI) in
  let reply a := App.mkResponse (Some (JS.str a)) None None in
  let after a :=
    App.suggestedTool
      (App.turn App.toLowerCaseAscii (JS.str "q") None 1 (reply a) 2 s) in
  after "An APA Table reports CFI"%string = Some FIT_CHECKER
  /\ after "Code for the APA table"%string = Some APA_TABLE
  /\ after "Some Code"%string = Some JAMOVI
  /\ after "Sample size matters"%string = None.
Proof.
  intros s reply after.
  pose (t a := suggestion_is_first_matching_set App.toLowerCaseAscii
                 (JS.str "q") None 1 2 (reply a) s).
  split; [|split; [|split]].
  - exact (proj1 (proj2 (t "An APA Table reports CFI"%string)) eq_refl).
  - exact (proj1 (proj2 (proj2 (t "Code for the APA table"%string)))
             eq_refl eq_refl).
  - exact (proj1 (proj2 (proj2 (proj2 (t "Some Code"%string))))
             eq_refl eq_refl eq_refl).
  - exact (proj2 (proj2 (proj2 (proj2 (t "Sample size matters"%string))))
             eq_refl eq_refl eq_refl).
Defined.

(** * Further properties *)

(** ** [trim] and [split] *)

Lemma trimStart_decompose (t : JS.jsstring) :
  exists w, t = w ++ JS.trimStart t
            /\ Forall (fun c => JS.isWhiteSpace c = true) w
            /\ (forall c rest, JS.trimStart t = c :: rest ->
                  JS.isWhiteSpace c = false).
Proof.
  induction t as [|c t (w & E & Hw & Hh)]; simpl.
  - exists []. repeat split; [constructor | discriminate].
  - destruct (JS.isWhiteSpace c) eqn:Hc.
    + exists (c :: w). repeat split.
      * simpl. now rewrite <- E.
      * now constructor.
      * exact Hh.
    + exists []. repeat split; [constructor|].
      intros c' rest H. now injection H as <- _.
Qed.

(** [trim] cuts a blank prefix and a blank suffix, and what is left has no
    whitespace at either end. *)
Lemma trim_decompose (t : JS.jsstring) :
  exists w1 w2,
    t = w1 ++ JS.trim t ++ w2
    /\ JS.blank w1 /\ JS.blank w2
    /\ JS.edgeTrimmed (JS.trim t).
Proof.
  destruct (trimStart_decompose t) as (w1 & E1 & Hw1 & Hh1).
  destruct (trimStart_decompose (rev (JS.trimStart t)))
    as (w & E2 & Hw & Hh2).
  assert (E3 : JS.trimStart t = JS.trim t ++ rev w).
  { unfold JS.trim, JS.trimEnd.
    rewrite <- (rev_involutive (JS.trimStart t)) at 1.
    rewrite E2 at 1. now rewrite rev_app_distr. }
  exists w1, (rev w). repeat split.
  - now rewrite <- E3.
  - exact Hw1.
  - unfold JS.blank. apply Forall_rev. exact Hw.
  - intros c rest H. rewrite H in E3. simpl in E3. exact (Hh1 _ _ E3).
  - intros c rest H. unfold JS.trim, JS.trimEnd in H.
    apply (f_equal (@rev N)) in H.
    rewrite rev_involutive, rev_app_distr in H. simpl in H.
    exact (Hh2 _ _ H).
Qed.

Lemma trim_incl (t : JS.jsstring) (c : N) : In c (JS.trim t) -> In c t.
Proof.
  destruct (trim_decompose t) as (w1 & w2 & E & _).
  intros H. rewrite E. apply in_or_app. right. apply in_or_app. now left.
Qed.

(** [!t.trim()] holds exactly for the strings of whitespace only. *)
Lemma trim_falsy_iff_blank (t : JS.jsstring) :
  JS.truthy (JS.trim t) = false <-> JS.blank t.
Proof.
  destruct (trim_decompose t) as (w1 & w2 & E & H1 & H2 & [Hh _]).
  split.
  - intros H. destruct (JS.trim t); [|discriminate].
    rewrite E. simpl. apply Forall_app. now split.
  - intros B. destruct (JS.trim t) as [|c rest] eqn:T; [reflexivity|].
    specialize (Hh c rest eq_refl).
    unfold JS.blank in B. rewrite Forall_forall in B.
    rewrite (B c) in Hh; [discriminate|].
    rewrite E. apply in_or_app. right. now left.
Qed.

Lemma exists_last_or_nil {A} (l : list A) :
  l = [] \/ exists l' x, l = l' ++ [x].
Proof.
  destruct l as [|a l]; [now left|]. right.
  destruct (exists_last (l := a :: l)) as (l' & x & E); [discriminate|].
  now exists l', x.
Qed.

Lemma split_nonempty (c : N) (t : JS.jsstring) : JS.split c t <> [].
Proof.
  destruct t as [|x t]; simpl; [discriminate|].
  destruct (N.eqb x c); [discriminate|].
  destruct (JS.split c t); discriminate.
Qed.

(** The pieces of [split] hold the code units of the string, the separator
    excepted. *)
Lemma split_pieces (c : N) (t : JS.jsstring) :
  forall p, In p (JS.split c t) ->
    ~ In c p /\ (forall x, In x p -> In x t).
Proof.
  induction t as [|x t IH]; simpl; intros p Hp.
  - destruct Hp as [<-|[]]. split; [intros []|intros x []].
  - destruct (N.eqb x c) eqn:Exc.
    + destruct Hp as [<-|Hp].
      * split; [intros []|intros y []].
      * destruct (IH p Hp) as [H1 H2]. split; [exact H1|].
        intros y Hy. right. now apply H2.
    + apply N.eqb_neq in Exc.
      destruct (JS.split c t) as [|q qs] eqn:Es.
      * destruct Hp as [<-|[]]. split.
        -- intros [H|[]]. congruence.
        -- intros y [<-|[]]. now left.
      * destruct Hp as [<-|Hp].
        -- destruct (IH q (or_introl eq_refl)) as [H1 H2]. split.
           ++ intros [H|H]; [congruence|contradiction].
           ++ intros y [<-|Hy]; [now left|right; now apply H2].
        -- destruct (IH p (or_intror Hp)) as [H1 H2]. split; [exact H1|].
           intros y Hy. right. now apply H2.
Qed.

(** ** Adding and dragging nodes *)

Section NodeFacts.
Import ModelPreview.

Lemma str_inj (a b : string) : JS.str a = JS.str b -> a = b.
Proof.
  unfold JS.str. intros H.
  assert (E : list_ascii_of_string a = list_ascii_of_string b).
  { revert H. generalize (list_ascii_of_string a) (list_ascii_of_string b).
    induction l as [|x l IH]; intros [|y l'] H; simpl in H;
      try discriminate; [reflexivity|].
    injection H as Hx Hl. f_equal; [|now apply IH].
    rewrite <- (ascii_N_embedding x), <- (ascii_N_embedding y).
    now rewrite Hx. }
  rewrite <- (string_of_list_ascii_of_string a),
          <- (string_of_list_ascii_of_string b).
  now rewrite E.
Qed.

Lemma to_uint_nonnil (n : N) : N.to_uint n <> Decimal.Nil.
Proof.
  destruct n as [|p]; simpl; [discriminate|].
  apply DecimalPos.Unsigned.to_uint_nonnil.
Qed.

(** [String(n)] tells the numbers apart. *)
Lemma ofN_inj (a b : N) : JS.ofN a = JS.ofN b -> a = b.
Proof.
  unfold JS.ofN. intros H. apply str_inj in H.
  apply DecimalN.Unsigned.to_uint_inj.
  pose proof (DecimalString.NilZero.usu _ (to_uint_nonnil a)) as Ha.
  pose proof (DecimalString.NilZero.usu _ (to_uint_nonnil b)) as Hb.
  rewrite H in Ha. rewrite Ha in Hb. now injection Hb.
Qed.

(** X1. [addNode] does nothing when the typed label is blank (empty or
    whitespace only); otherwise it appends one node, with the label exactly
    as typed, the selected type and the id made of the time, empties the
    input, and leaves the earlier nodes in place. *)
Theorem addNode_blank_or_appends (now : N) (r1 r2 : Q) (s : State) :
  (JS.blank (newNodeLabel s) -> addNode now r1 r2 s = s)
  /\ (~ JS.blank (newNodeLabel s) ->
      nodes (addNode now r1 r2 s)
      = nodes s
        ++ [mkNode (JS.str "n" ++ JS.ofN now) (newNodeLabel s) (nodeType s)
              (100 + r1 * 50) (100 + r2 * 50)]
      /\ newNodeLabel (addNode now r1 r2 s) = []).
Proof.
  unfold addNode. split; intros H.
  - apply trim_falsy_iff_blank in H. now rewrite H.
  - destruct (JS.truthy (JS.trim (newNodeLabel s))) eqn:E.
    + split; reflexivity.
    + apply trim_falsy_iff_blank in E. contradiction.
Qed.

Lemma addNode_blank_or_appends_witness :
  let s := initialState App.defaultNodes App.defaultLinks false in
  addNode 7 0 0 (setNewNodeLabel (JS.str "  ") s)
  = setNewNodeLabel (JS.str "  ") s
  /\ List.length (nodes (addNode 7 0 0 (setNewNodeLabel (JS.str " Trust") s)))
     = 4%nat.
Proof.
  intros s. split.
  - refine (proj1 (addNode_blank_or_appends 7 0 0 _) _).
    repeat constructor.
  - refine (f_equal (@List.length Node)
              (proj1 (proj2 (addNode_blank_or_appends 7 0 0
                               (setNewNodeLabel (JS.str " Trust") s)) _))).
    intros B. inversion B as [|c t H1 H2]. inversion H2. discriminate.
Defined.



(** X3. The nodes added by two calls of [addNode] have the same id exactly
    when the calls happen in the same millisecond. *)
Theorem addNode_same_id_iff_same_time
  (now1 now2 : N) (r1 r2 r3 r4 : Q) (s1 s2 : State) (n1 n2 : Node) :
  nodes (addNode now1 r1 r2 s1) = nodes s1 ++ [n1] ->
  nodes (addNode now2 r3 r4 s2) = nodes s2 ++ [n2] ->
  (id n1 = id n2 <-> now1 = now2).
Proof.
  unfold addNode. intros E1 E2.
  destruct (negb (JS.truthy (JS.trim (newNodeLabel s1)))).
  { exfalso. apply (f_equal (@List.length Node)) in E1.
    rewrite length_app in E1. simpl in E1. lia. }
  destruct (negb (JS.truthy (JS.trim (newNodeLabel s2)))).
  { exfalso. apply (f_equal (@List.length Node)) in E2.
    rewrite length_app in E2. simpl in E2. lia. }
  cbn in E1, E2.
  apply app_inj_tail in E1 as [_ <-]. apply app_inj_tail in E2 as [_ <-].
  cbn. split.
  - intros H. injection H as H. now apply ofN_inj.
  - now intros ->.
Qed.

Lemma addNode_same_id_iff_same_time_witness :
  let s := setNewNodeLabel (JS.str "Trust")
             (initialState App.defaultNodes App.defaultLinks false) in
  JS.str "n7" = JS.str "n8" <-> 7%N = 8%N.
Proof.
  intros s.
  exact (addNode_same_id_iff_same_time 7 8 0 0 0 0 s s
           (mkNode (JS.str "n7") (JS.str "Trust") latent
              (100 + 0 * 50) (100 + 0 * 50))
           (mkNode (JS.str "n8") (JS.str "Trust") latent
              (100 + 0 * 50) (100 + 0 * 50))
           eq_refl eq_refl).
Defined.

End NodeFacts.

Section DragFacts.
Import ModelPreview.

Lemma handleDragEnd_nodes (node : Node) (clientX clientY : Q)
  (rect : option Point) (s : State) :
  nodes (handleDragEnd node clientX clientY rect s)
  = match interactionMode s, rect with
    | move, Some r => map (dropped node clientX clientY r) (nodes s)
    | _, _ => nodes s
    end.
Proof.
  unfold handleDragEnd.
  destruct (interactionMode s), rect; reflexivity.
Qed.

Lemma dropped_declaration (node : Node) (clientX clientY : Q) (r : Point)
  (n : Node) :
  nodeDeclaration (dropped node clientX clientY r n) = nodeDeclaration n.
Proof. unfold dropped. now destruct (JS.eqb _ _). Qed.

(** X4. Dragging a node changes coordinates only: ids, labels and types
    stay as they were, in order, the link list and theme are untouched, and
    so the mermaid text after the drag is the text before. *)
Theorem drag_keeps_diagram_text (node : Node) (clientX clientY : Q)
  (rect : option Point) (s : State) :
  let s' := handleDragEnd node clientX clientY rect s in
  map id (nodes s') = map id (nodes s)
  /\ map label (nodes s') = map label (nodes s)
  /\ map type (nodes s') = map type (nodes s)
  /\ links s' = links s
  /\ generateSyntax (nodes s') (links s') (isDarkMode s')
     = generateSyntax (nodes s) (links s) (isDarkMode s).
Proof.
  cbv zeta.
  assert (L : links (handleDragEnd node clientX clientY rect s) = links s
              /\ isDarkMode (handleDragEnd node clientX clientY rect s)
                 = isDarkMode s).
  { unfold handleDragEnd. destruct (interactionMode s), rect; now split. }
  destruct L as [L D]. rewrite L, D, handleDragEnd_nodes.
  destruct (interactionMode s); [|now repeat split].
  destruct rect as [r|]; [|now repeat split].
  repeat split; try (rewrite map_map; apply map_ext; intros n;
                     unfold dropped; now destruct (JS.eqb _ _)).
  unfold generateSyntax. cbv zeta.
  rewrite !forEach_appendLink, !forEach_appendNode. do 2 f_equal.
  rewrite map_map. f_equal. apply map_ext. apply dropped_declaration.
Qed.



End DragFacts.

(** ** The link store under the editor's events *)

Section StoreFacts.
Import ModelPreview.

(** Events that are not a node click, an undo, a clear or a load of links
    leave the link list alone. *)
Lemma handle_links (e : Event) (s : State) :
  links (handle e s)
  = match e with
    | ClickUndoLastLink => links (removeLastLink s)
    | ClickClearAllLinks c => links (clearAllLinks c s)
    | NodeClick i => links (handleNodeClick i s)
    | StorageLoaded _ (Some ls) _ => ls
    | _ => links s
    end.
Proof.
  destruct e; cbn [handle]; try reflexivity.
  - unfold handleMouseMove.
    destruct (interactionMode s), (linkingSourceId s) as [src|];
      try reflexivity.
    now destruct (JS.truthy src).
  - unfold handleDragEnd. now destruct (interactionMode s), rect.
  - unfold addNode. now destruct (negb _).
  - unfold restoreFromStorage.
    now destruct savedNodes, savedLinks, savedDark.
Qed.

(** A click leaves the list as it is or appends one link, whose ends differ
    and which has no equivalent in the list. *)
Lemma handleNodeClick_links (i : JS.jsstring) (s : State) :
  links (handleNodeClick i s) = links s
  \/ exists src,
       src <> i
       /\ ~ hasEquivalent src i (linkType s) (links s)
       /\ links (handleNodeClick i s)
          = links s ++ [mkLink src i (Some (linkType s))].
Proof.
  unfold handleNodeClick.
  destruct (interactionMode s); [now left|].
  destruct (linkingSourceId s) as [src|]; [|now left].
  destruct (JS.eqb src i) eqn:E; [now left|].
  cbn [negb]. destruct (JS.some _ _) eqn:X; cbn; [now left|].
  right. exists src. repeat split.
  - intros ->. now rewrite JS_eqb_refl in E.
  - intros H. apply some_equivalentLink_iff in H. congruence.
Qed.

Lemma storeOk_prefix (xs ys : list Link) : storeOk (xs ++ ys) -> storeOk xs.
Proof.
  intros (S1 & S2 & S3). repeat split.
  - unfold noSelfLoop in *. now apply Forall_app in S1 as [S1 _].
  - unfold distinctPairs in *. rewrite map_app in S2.
    now apply NoDup_app_remove_r in S2.
  - intros pre l post E. apply (S3 pre l (post ++ ys)).
    rewrite E, <- app_assoc. reflexivity.
Qed.

Lemma storeOk_snoc (ls : list Link) (a b : JS.jsstring) (k : LinkType) :
  a <> b -> ~ hasEquivalent a b k ls -> storeOk ls ->
  storeOk (ls ++ [mkLink a b (Some k)]).
Proof.
  intros Hab Hne (S1 & S2 & S3). repeat split.
  - apply Forall_app. split; [exact S1|]. now repeat constructor.
  - unfold distinctPairs. rewrite map_app. apply NoDup_app.
    + exact S2.
    + repeat constructor. intros [].
    + intros p Hp [<-|[]]. apply in_map_iff in Hp as (l & El & Hl).
      apply Hne. exists l. split; [exact Hl|]. left.
      unfold endpoints in El. now injection El.
  - intros pre l post E Hk l' Hl' [H1 H2].
    destruct (exists_last_or_nil post) as [->|(post' & x & ->)].
    + apply app_inj_tail in E as [<- <-]. cbn in *.
      injection Hk as ->. apply Hne. exists l'. split; [exact Hl'|].
      right. now repeat split.
    + change (pre ++ l :: post' ++ [x]) with (pre ++ (l :: post') ++ [x]) in E.
      rewrite app_assoc in E. apply app_inj_tail in E as [E _].
      exact (S3 pre l post' E Hk l' Hl' (conj H1 H2)).
Qed.

Lemma removeLastLink_links_prefix (s : State) :
  exists rest, links s = links (removeLastLink s) ++ rest.
Proof.
  destruct (exists_last_or_nil (links s)) as [E|(ls & l & E)].
  - exists []. unfold removeLastLink. rewrite E. cbn. now rewrite E.
  - exists [l]. unfold removeLastLink. rewrite E, length_app. simpl.
    replace (0 <? List.length ls + 1)%nat with true
      by (symmetry; apply Nat.ltb_lt; lia).
    cbn [links setLinks]. now rewrite slice_drop_last.
Qed.

Lemma step_keeps_storeOk (e : Event) (s : State) :
  loadsLinks e = false -> storeOk (links s) -> storeOk (links (step e s)).
Proof.
  intros He Ok. unfold step, syntaxEffect. cbn [links setMermaidSyntax].
  rewrite handle_links.
  destruct e; try exact Ok.
  - destruct (removeLastLink_links_prefix s) as (rest & E).
    rewrite E in Ok. now apply storeOk_prefix in Ok.
  - destruct confirmed; [|exact Ok]. cbn.
    repeat split; try constructor.
    intros pre l post E. now destruct pre.
  - destruct (handleNodeClick_links id0 s) as [->|(src & Hne & Hno & ->)];
      [exact Ok|].
    now apply storeOk_snoc.
  - destruct savedLinks; [discriminate|exact Ok].
Qed.

(** X6. Starting from a link list with no self-loop, no two links with the
    same source and target, and no covariance appended after its mirror
    image, every sequence of editor events other than a load of links from
    storage leaves a link list with the same three properties. *)
Theorem run_keeps_storeOk (es : list Event) (s : State) :
  Forall (fun e => loadsLinks e = false) es ->
  storeOk (links s) -> storeOk (links (run es s)).
Proof.
  unfold run. revert s.
  induction es as [|e es IH]; intros s Hes Ok; [exact Ok|].
  inversion Hes as [|e' es' He Hes']; subst. cbn [fold_left].
  apply IH; [exact Hes'|]. now apply step_keeps_storeOk.
Qed.

Lemma defaultLinks_storeOk : storeOk App.defaultLinks.
Proof.
  repeat split.
  - repeat constructor; discriminate.
  - repeat constructor; simpl; intuition discriminate.
  - intros pre l post E Hk.
    assert (Hin : In l App.defaultLinks).
    { rewrite E. apply in_or_app. right. now left. }
    destruct Hin as [<-|[<-|[]]]; discriminate.
Qed.

Lemma run_keeps_storeOk_witness :
  storeOk
    (links
       (run [ClickLinkMode; NodeClick (JS.str "1"); NodeClick (JS.str "2");
             ClickLinkType covariance; NodeClick (JS.str "2");
             NodeClick (JS.str "1"); NodeClick (JS.str "3");
             NodeClick (JS.str "3"); ClickUndoLastLink]
            (initialState App.defaultNodes App.defaultLinks false))).
Proof.
  apply run_keeps_storeOk.
  - repeat constructor.
  - exact defaultLinks_storeOk.
Defined.

(** X7. A second click on the pending node cancels the link: from link
    mode with no pending source, two clicks on one node give back the state
    before them with the preview end cleared; no link is added. *)
Theorem same_node_twice_cancels (a : JS.jsstring) (s : State) :
  interactionMode s = link -> linkingSourceId s = None ->
  handleNodeClick a (handleNodeClick a s) = setTempLineEnd None s.
Proof.
  destruct s as [ns ls dk lbl nt ms vm im lt ps tle]. cbn.
  intros -> ->. unfold handleNodeClick. cbn.
  now rewrite JS_eqb_refl.
Qed.

Lemma same_node_twice_cancels_witness :
  let s := clickLinkMode
             (initialState App.defaultNodes App.defaultLinks false) in
  handleNodeClick (JS.str "1") (handleNodeClick (JS.str "1") s)
  = setTempLineEnd None s.
Proof.
  intros s. exact (same_node_twice_cancels (JS.str "1") s eq_refl eq_refl).
Defined.

(** X8. Undo after a second click: when the click added a link, the undo
    gives back the link list of before the click; when the click was
    rejected for an equivalent link, the undo removes the last link that was
    already there. *)
Theorem undo_after_second_click (s : State) (a b : JS.jsstring) :
  interactionMode s = link -> linkingSourceId s = Some a -> a <> b ->
  (~ hasEquivalent a b (linkType s) (links s) ->
   links (removeLastLink (handleNodeClick b s)) = links s)
  /\ (hasEquivalent a b (linkType s) (links s) ->
      exists ls l, links s = ls ++ [l]
                   /\ links (removeLastLink (handleNodeClick b s)) = ls).
Proof.
  intros Hm Hp Hab. rewrite (handleNodeClick_second s a b Hm Hp Hab).
  split; intros H.
  - destruct (JS.some _ _) eqn:E.
    { apply some_equivalentLink_iff in E. contradiction. }
    unfold removeLastLink. cbn [links setTempLineEnd setLinkingSourceId setLinks].
    rewrite length_app. simpl.
    replace (0 <? List.length (links s) + 1)%nat with true
      by (symmetry; apply Nat.ltb_lt; lia).
    cbn [links setLinks]. apply slice_drop_last.
  - pose proof H as H'. apply some_equivalentLink_iff in H'. rewrite H'.
    destruct (exists_last_or_nil (links s)) as [E|(ls & l & E)].
    { destruct H as (l & Hin & _). rewrite E in Hin. contradiction. }
    exists ls, l. split; [exact E|].
    unfold removeLastLink. cbn [links setTempLineEnd setLinkingSourceId].
    rewrite E, length_app. simpl.
    replace (0 <? List.length ls + 1)%nat with true
      by (symmetry; apply Nat.ltb_lt; lia).
    cbn [links setLinks]. apply slice_drop_last.
Qed.

Lemma undo_after_second_click_witness :
  let s0 := clickLinkMode
              (initialState App.defaultNodes App.defaultLinks false) in
  links (removeLastLink
           (handleNodeClick (JS.str "2")
              (setLinkingSourceId (Some (JS.str "1")) s0)))
  = App.defaultLinks
  /\ exists ls l,
       App.defaultLinks = ls ++ [l]
       /\ links (removeLastLink
                   (handleNodeClick (JS.str "3")
                      (setLinkingSourceId (Some (JS.str "1")) s0))) = ls.
Proof.
  intros s0. split.
  - refine (proj1 (undo_after_second_click
                     (setLinkingSourceId (Some (JS.str "1")) s0)
                     (JS.str "1") (JS.str "2") eq_refl eq_refl _) _).
    + discriminate.
    + intros [l [Hin [[H1 H2]|[H1 _]]]]; [|discriminate].
      simpl in Hin. destruct Hin as [<-|[<-|[]]]; discriminate.
  - refine (proj2 (undo_after_second_click
                     (setLinkingSourceId (Some (JS.str "1")) s0)
                     (JS.str "1") (JS.str "3") eq_refl eq_refl _) _).
    + discriminate.
    + exists (mkLink (JS.str "1") (JS.str "3") (Some directed)).
      split; [now left|]. left. now split.
Defined.

End StoreFacts.

(** ** The preview line and the shape of the text *)

Section PreviewFacts.
Import ModelPreview.

Lemma handle_keeps_preview_in_link_mode (e : Event) (s : State) :
  (tempLineEnd s <> None -> interactionMode s = link) ->
  tempLineEnd (handle e s) <> None -> interactionMode (handle e s) = link.
Proof.
  destruct s as [ns ls dk lbl nt ms vm im lt ps tle].
  cbn [tempLineEnd interactionMode]. intros Inv.
  destruct e; cbn [handle]; try exact Inv;
    try (cbn; intros H; now contradiction H).
  - cbn. intros _. reflexivity.
  - unfold removeLastLink. destruct (_ <? _)%nat; exact Inv.
  - unfold clearAllLinks. destruct confirmed; exact Inv.
  - unfold handleMouseMove. cbn [linkingSourceId interactionMode].
    destruct im; [exact Inv|].
    destruct ps as [src|]; [|exact Inv].
    destruct (JS.truthy src); [|exact Inv]. reflexivity.
  - unfold handleNodeClick. cbn [linkingSourceId interactionMode].
    destruct im; [exact Inv|].
    destruct ps as [src|]; [|exact Inv].
    destruct (JS.eqb src id0); cbn; intros H; now contradiction H.
  - unfold handleDragEnd. cbn [linkingSourceId interactionMode].
    destruct im; [|exact Inv].
    destruct rect; exact Inv.
  - unfold addNode. destruct (negb _); exact Inv.
  - unfold restoreFromStorage.
    destruct savedNodes, savedLinks, savedDark; exact Inv.
Qed.

Lemma reachable_preview_in_link_mode (s : State) :
  reachable s -> tempLineEnd s <> None -> interactionMode s = link.
Proof.
  induction 1 as [ns ls dark|e s _ IH].
  - cbn. intros H. now contradiction H.
  - unfold step, syntaxEffect.
    cbn [tempLineEnd interactionMode setMermaidSyntax].
    now apply handle_keeps_preview_in_link_mode.
Qed.

Lemma nodeWithId_id (ns : list Node) (i : JS.jsstring) (n : Node) :
  nodeWithId ns i = Some n -> id n = i /\ In n ns.
Proof.
  unfold nodeWithId. intros H. apply find_some in H as [Hin E].
  apply JS_eqb_eq in E. now split.
Qed.

(** X9. In every reachable state the render of the preview line returns
    normally, and a preview end is kept only in link mode.  When a line is
    drawn the editor is in link mode, the pending source is the id of a
    node of the list, and the line runs from that node's anchor to the last
    pointer position recorded. *)
Theorem preview_line_needs_pending_node (s : State) :
  reachable s ->
  (tempLineEnd s <> None -> interactionMode s = link)
  /\ exists r,
       renderTempLine s = JS.Normal r
       /\ forall line, r = Some line ->
            interactionMode s = link
            /\ exists src p,
                 linkingSourceId s = Some (id src)
                 /\ In src (nodes s)
                 /\ tempLineEnd s = Some p
                 /\ tx1 line = x src + halfWidth (type src)
                 /\ ty1 line = y src + 25
                 /\ tx2 line = px p /\ ty2 line = py p.
Proof.
  intros R. split; [now apply reachable_preview_in_link_mode|].
  pose proof (reachable_pending_in_link_mode s R) as Inv.
  unfold renderTempLine, JS.find.
  destruct (linkingSourceId s) as [sid|];
    [|eexists; split; [reflexivity|discriminate]].
  destruct (JS.truthy sid);
    [|eexists; split; [reflexivity|discriminate]].
  cbn [negb].
  destruct (tempLineEnd s) as [p|];
    [|eexists; split; [reflexivity|discriminate]].
  destruct (List.find _ (nodes s)) as [src|] eqn:F;
    [|eexists; split; [reflexivity|discriminate]].
  cbn. eexists. split; [reflexivity|].
  intros line E. injection E as <-.
  split; [apply Inv; discriminate|].
  destruct (nodeWithId_id _ _ _ F) as [Hid Hin].
  exists src, p. rewrite Hid. now repeat split.
Qed.

Lemma preview_line_needs_pending_node_witness :
  let s := run [ClickLinkMode; NodeClick (JS.str "1"); MouseMove 300 200 10 20]
             (syntaxEffect
                (initialState App.defaultNodes App.defaultLinks false)) in
  interactionMode s = link
  /\ exists r, renderTempLine s = JS.Normal r.
Proof.
  intros s.
  assert (R : reachable s).
  { unfold s, run. cbn [fold_left].
    do 3 apply reachable_step. apply reachable_mount. }
  destruct (preview_line_needs_pending_node s R) as [H (r & E & _)].
  split.
  - apply H. discriminate.
  - now exists r.
Defined.

Lemma count_nl_str_free (t : JS.jsstring) :
  ~ In JS.nl t -> count_occ N.eq_dec t JS.nl = 0%nat.
Proof. apply count_occ_not_In. Qed.

Lemma sanitize_no_nl (lbl : JS.jsstring) : ~ In JS.nl (sanitize lbl).
Proof.
  intros H. pose proof (sanitize_no_whitespace lbl) as F.
  rewrite Forall_forall in F. specialize (F _ H). discriminate.
Qed.

Lemma nodeDeclaration_one_line (n : Node) :
  ~ In JS.nl (id n) ->
  count_occ N.eq_dec (nodeDeclaration n) JS.nl = 1%nat.
Proof.
  intros H. unfold nodeDeclaration, shapeMarker.
  rewrite !count_occ_app, (count_nl_str_free _ H).
  pose proof (count_nl_str_free _ (sanitize_no_nl (label n))) as Hs.
  destruct (type n); rewrite !count_occ_app, Hs; reflexivity.
Qed.

Lemma linkDeclaration_one_line (l : Link) :
  ~ In JS.nl (source l) -> ~ In JS.nl (target l) ->
  count_occ N.eq_dec (linkDeclaration l) JS.nl = 1%nat.
Proof.
  intros H1 H2. unfold linkDeclaration, arrowMarker.
  rewrite !count_occ_app, (count_nl_str_free _ H1), (count_nl_str_free _ H2).
  now destruct (linkKind l) as [[|]|].
Qed.

Lemma count_concat_one_line {A} (f : A -> JS.jsstring) (xs : list A) :
  Forall (fun x => count_occ N.eq_dec (f x) JS.nl = 1%nat) xs ->
  count_occ N.eq_dec (List.concat (map f xs)) JS.nl = List.length xs.
Proof.
  induction 1 as [|x xs Hx _ IH]; simpl; [reflexivity|].
  now rewrite count_occ_app, Hx, IH.
Qed.

(** X10. When no node id and no link end holds a line feed, the mermaid
    text has exactly one line for the graph header, one for each of the two
    class definitions, one for each node and one for each link: a line feed
    typed in a label cannot break the line structure, the label being
    sanitized. *)
Theorem generateSyntax_line_count
  (ns : list Node) (ls : list Link) (dark : bool) :
  Forall (fun n => ~ In JS.nl (id n)) ns ->
  Forall (fun l => ~ In JS.nl (source l) /\ ~ In JS.nl (target l)) ls ->
  count_occ N.eq_dec (generateSyntax ns ls dark) JS.nl
  = (3 + List.length ns + List.length ls)%nat.
Proof.
  intros Hn Hl. unfold generateSyntax. cbv zeta.
  rewrite forEach_appendLink, forEach_appendNode, !count_occ_app.
  rewrite (count_concat_one_line nodeDeclaration),
          (count_concat_one_line linkDeclaration).
  - destruct dark; simpl; lia.
  - eapply Forall_impl; [|exact Hl]. intros l [H1 H2].
    now apply linkDeclaration_one_line.
  - eapply Forall_impl; [|exact Hn]. intros n H.
    now apply nodeDeclaration_one_line.
Qed.

Lemma generateSyntax_line_count_witness :
  count_occ N.eq_dec
    (generateSyntax
       (App.defaultNodes
        ++ [mkNode (JS.str "4") (JS.str "Job" ++ [JS.nl] ++ JS.str "Fit")
              observed 0 0])
       App.defaultLinks true) JS.nl
  = 9%nat.
Proof.
  apply (generateSyntax_line_count
           (App.defaultNodes
            ++ [mkNode (JS.str "4") (JS.str "Job" ++ [JS.nl] ++ JS.str "Fit")
                  observed 0 0])
           App.defaultLinks true).
  - repeat constructor; cbn; intuition discriminate.
  - repeat constructor; cbn; intuition discriminate.
Defined.

End PreviewFacts.

(** ** Parsing the table and hiding columns *)

Section ParseFacts.
Import ApaTableGenerator.

(** X11. The parsed table always has a header row, and every row, the
    header included, has at least one cell, so the fallback for a missing
    header row is never taken.  A blank input gives a header of one empty
    cell and no body row. *)
Theorem rows_never_empty (s : State) :
  (rows s <> [] /\ Forall (fun row => row <> []) (rows s)
   /\ allHeaders s <> [])
  /\ (JS.blank (dataText s) ->
      rows s = [[[]]] /\ allHeaders s = [[]] /\ allBody s = []
      /\ body s = []).
Proof.
  assert (R : rows s <> [] /\ Forall (fun row => row <> []) (rows s)).
  { unfold rows. split.
    - intros H. apply map_eq_nil in H. now apply split_nonempty in H.
    - apply Forall_map. apply Forall_forall. intros r _ H.
      apply map_eq_nil in H. now apply split_nonempty in H. }
  split.
  - destruct R as [R1 R2]. repeat split; try assumption.
    unfold allHeaders. destruct (rows s) as [|r rs]; [contradiction|].
    simpl. now inversion R2.
  - intros B. apply trim_falsy_iff_blank in B.
    assert (E : rows s = [[[]]]).
    { unfold rows. destruct (JS.trim (dataText s)); [reflexivity|discriminate]. }
    assert (Eb : allBody s = []).
    { unfold allBody. now rewrite sliceFrom_1, E. }
    repeat split; try assumption.
    + unfold allHeaders. now rewrite E.
    + unfold body, getVisibleData. cbn [snd]. now rewrite Eb.
Qed.

Lemma rows_never_empty_witness :
  let s := mkState (JS.str "  " ++ [JS.nl]) [] [] [] false in
  rows s = [[[]]] /\ allHeaders s = [[]] /\ allBody s = [] /\ body s = [].
Proof.
  intros s. refine (proj2 (rows_never_empty s) _). repeat constructor.
Defined.

(** X12. Every cell of the parsed table is trimmed (no whitespace at its
    ends) and holds neither a comma nor a line feed. *)
Theorem cells_are_trimmed (s : State) (row : list JS.jsstring)
  (cell : JS.jsstring) :
  In row (rows s) -> In cell row ->
  JS.edgeTrimmed cell /\ ~ In comma cell /\ ~ In JS.nl cell.
Proof.
  unfold rows. intros Hr Hc.
  apply in_map_iff in Hr as (line & <- & Hline).
  apply in_map_iff in Hc as (piece & <- & Hpiece).
  destruct (split_pieces _ _ _ Hline) as [Hnl _].
  destruct (split_pieces _ _ _ Hpiece) as [Hcomma Hsub].
  split; [|split].
  - now destruct (trim_decompose piece) as (_ & _ & _ & _ & _ & T).
  - intros H. apply Hcomma. now apply trim_incl.
  - intros H. apply Hnl, Hsub. now apply trim_incl.
Qed.

Lemma cells_are_trimmed_witness :
  let s := mkState (JS.str " A , B b " ++ [JS.nl] ++ JS.str "1 ,2")
             [] [] [] false in
  JS.edgeTrimmed (JS.str "B b") /\ ~ In comma (JS.str "B b")
  /\ ~ In JS.nl (JS.str "B b").
Proof.
  intros s.
  refine (cells_are_trimmed s [JS.str "A"; JS.str "B b"] (JS.str "B b") _ _).
  - left. reflexivity.
  - right. left. reflexivity.
Defined.

Lemma visibleCells_fit (hidden hs row : list JS.jsstring) :
  (List.length (visibleCells hidden hs row)
   <= List.length (filter (visible hidden) hs))%nat
  /\ (List.length row = List.length hs ->
      List.length (visibleCells hidden hs row)
      = List.length (filter (visible hidden) hs)).
Proof.
  unfold visibleCells. revert row.
  induction hs as [|h hs IH]; intros [|c row]; simpl;
    try (split; [lia|intros; try reflexivity; discriminate]).
  destruct (IH row) as [IH1 IH2].
  destruct (visible hidden h); simpl; split; try lia;
    intros H; rewrite IH2; lia.
Qed.

Lemma visibleCells_incl (hidden hs row : list JS.jsstring) (c : JS.jsstring) :
  In c (visibleCells hidden hs row) -> In c row.
Proof.
  unfold visibleCells. intros H.
  apply in_map_iff in H as ([h c'] & <- & H).
  apply filter_In in H as [H _]. now apply in_combine_r in H.
Qed.

(** X13. Hiding columns never removes a row, never makes a body row wider
    than the header shown, and keeps a body row with as many fields as the
    header row aligned with it (one cell for each header shown); every cell
    shown in the body is a cell of the corresponding parsed row. *)
Theorem body_rows_fit_header (s : State) :
  List.length (body s) = List.length (allBody s)
  /\ Forall (fun row => (List.length row <= List.length (header s))%nat)
       (body s)
  /\ (forall k row, nth_error (allBody s) k = Some row ->
        exists shown,
          nth_error (body s) k = Some shown
          /\ (forall c, In c shown -> In c row)
          /\ (List.length row = List.length (allHeaders s) ->
              List.length shown = List.length (header s))).
Proof.
  rewrite body_visibleCells, header_visible. split; [apply length_map|].
  split.
  - apply Forall_map. apply Forall_forall. intros row _.
    apply visibleCells_fit.
  - intros k row H. eexists. split; [exact (map_nth_error _ _ _ H)|]. split.
    + intros c. apply visibleCells_incl.
    + apply visibleCells_fit.
Qed.

Lemma body_rows_fit_header_witness :
  let s := mkState (JS.str "A,B,C" ++ [JS.nl] ++ JS.str "1,2,3")
             [] [] [JS.str "B"] false in
  exists shown,
    nth_error (body s) 0 = Some shown
    /\ List.length shown = List.length (header s).
Proof.
  intros s.
  destruct (proj2 (proj2 (body_rows_fit_header s))
              0%nat [JS.str "1"; JS.str "2"; JS.str "3"] eq_refl)
    as (shown & E & _ & H).
  exists shown. split; [exact E|]. exact (H eq_refl).
Defined.

Lemma In_existsb_eqb (c : JS.jsstring) (xs : list JS.jsstring) :
  existsb (JS.eqb c) xs = true <-> In c xs.
Proof.
  rewrite existsb_exists. split.
  - intros (x & Hx & E). apply JS_eqb_eq in E. now subst.
  - intros H. exists c. split; [exact H|apply JS_eqb_refl].
Qed.

Lemma existsb_filter_other (c col : JS.jsstring) (xs : list JS.jsstring) :
  existsb (JS.eqb c) (filter (fun x => negb (JS.eqb x col)) xs)
  = if JS.eqb c col then false else existsb (JS.eqb c) xs.
Proof.
  induction xs as [|x xs IH]; simpl.
  - now destruct (JS.eqb c col).
  - destruct (JS.eqb x col) eqn:Ex; simpl; rewrite IH;
      destruct (JS.eqb c col) eqn:Ec; try reflexivity.
    + apply JS_eqb_eq in Ex. subst x. now rewrite Ec.
    + apply JS_eqb_eq in Ec. subst c. rewrite JS_eqb_sym, Ex. reflexivity.
Qed.

Lemma toggleColumn_visible (col c : JS.jsstring) (s : State) :
  visible (hiddenColumns (toggleColumn col s)) c
  = if JS.eqb c col then negb (visible (hiddenColumns s) c)
    else visible (hiddenColumns s) c.
Proof.
  unfold toggleColumn, visible, JS.arrayIncludes. cbn [hiddenColumns].
  destruct (existsb (JS.eqb col) (hiddenColumns s)) eqn:E.
  - rewrite existsb_filter_other.
    destruct (JS.eqb c col) eqn:Ec; [|reflexivity].
    apply JS_eqb_eq in Ec. subst c. now rewrite E.
  - rewrite existsb_app. simpl. rewrite orb_false_r.
    destruct (JS.eqb c col) eqn:Ec.
    + apply JS_eqb_eq in Ec. subst c. rewrite E. reflexivity.
    + now rewrite orb_false_r.
Qed.

Lemma visibleCells_ext (h1 h2 hs row : list JS.jsstring) :
  (forall c, visible h1 c = visible h2 c) ->
  visibleCells h1 hs row = visibleCells h2 hs row.
Proof.
  intros E. unfold visibleCells. f_equal. apply filter_ext.
  intros [h c]. apply E.
Qed.

(** X14. [toggleColumn] flips the visibility of the columns with the
    given name and of no other; hiding a visible name removes from the
    header every column of that name; toggling twice shows the table of
    before (header and body); and a hidden list without repeats stays
    without repeats. *)
Theorem toggleColumn_flips (col : JS.jsstring) (s : State) :
  (forall c,
     visible (hiddenColumns (toggleColumn col s)) c
     = if JS.eqb c col then negb (visible (hiddenColumns s) c)
       else visible (hiddenColumns s) c)
  /\ (visible (hiddenColumns s) col = true ->
      header (toggleColumn col s)
      = filter (fun h => negb (JS.eqb h col)) (header s))
  /\ (header (toggleColumn col (toggleColumn col s)) = header s
      /\ body (toggleColumn col (toggleColumn col s)) = body s)
  /\ (NoDup (hiddenColumns s) -> NoDup (hiddenColumns (toggleColumn col s))).
Proof.
  split; [intros c; apply toggleColumn_visible|].
  assert (T : forall c,
            visible (hiddenColumns (toggleColumn col (toggleColumn col s))) c
            = visible (hiddenColumns s) c).
  { intros c. rewrite !toggleColumn_visible.
    destruct (JS.eqb c col); [apply negb_involutive|reflexivity]. }
  split; [|split; [split|]].
  - intros V. rewrite !header_visible.
    change (allHeaders (toggleColumn col s)) with (allHeaders s).
    induction (allHeaders s) as [|h hs IH]; [reflexivity|].
    cbn [filter]. rewrite toggleColumn_visible, IH.
    destruct (JS.eqb h col) eqn:E.
    + apply JS_eqb_eq in E. subst h. rewrite V. cbn [negb filter].
      now rewrite JS_eqb_refl.
    + destruct (visible (hiddenColumns s) h); cbn [filter]; [now rewrite E|].
      reflexivity.
  - rewrite !header_visible.
    change (allHeaders (toggleColumn col (toggleColumn col s)))
      with (allHeaders s).
    apply filter_ext. exact T.
  - rewrite !body_visibleCells.
    change (allHeaders (toggleColumn col (toggleColumn col s)))
      with (allHeaders s).
    change (allBody (toggleColumn col (toggleColumn col s)))
      with (allBody s).
    apply map_ext. intros row. now apply visibleCells_ext.
  - intros N. unfold toggleColumn, JS.arrayIncludes. cbn [hiddenColumns].
    destruct (existsb (JS.eqb col) (hiddenColumns s)) eqn:E.
    + now apply NoDup_filter.
    + apply NoDup_app; [exact N|repeat constructor; intros []|].
      intros c Hc [<-|[]].
      apply In_existsb_eqb in Hc. congruence.
Qed.

Lemma toggleColumn_flips_witness :
  let s := mkState (JS.str "A,B,A" ++ [JS.nl] ++ JS.str "1,2,3")
             [] [] [JS.str "B"] false in
  header (toggleColumn (JS.str "A") s) = []
  /\ NoDup (hiddenColumns (toggleColumn (JS.str "A") s)).
Proof.
  intros s. split.
  - exact (proj1 (proj2 (toggleColumn_flips (JS.str "A") s)) eq_refl).
  - refine (proj2 (proj2 (proj2 (toggleColumn_flips (JS.str "A") s))) _).
    repeat constructor. intros [].
Defined.

End ParseFacts.

(** ** Turns of the conversation and the suggestion prompt *)

Section TurnFacts.
Import App.

Variable toLowerCase : JS.jsstring -> JS.jsstring.


Lemma last_message (ms : list Message) (u a : Message) :
  last ((ms ++ [u]) ++ [a]) u = a.
Proof. apply last_last. Qed.

End TurnFacts.






(** ** The input form *)

(** X18. The form sends exactly when the submit button is enabled: not
    while a reply is awaited, and only with a non-blank input or a selected
    file.  What is sent is the input as typed and the file; the input and
    the file are then cleared.  Submitting again at once sends nothing
    more. *)
Theorem handleSubmit_sends_when_enabled
  (isLoading : bool) (c : ChatPanel.State) :
  (ChatPanel.submitDisabled isLoading c = true <->
   isLoading = true
   \/ (JS.blank (ChatPanel.input c) /\ ChatPanel.selectedFile c = None))
  /\ (ChatPanel.submitDisabled isLoading c = true ->
      ChatPanel.handleSubmit isLoading c = (None, c))
  /\ (ChatPanel.submitDisabled isLoading c = false ->
      ChatPanel.handleSubmit isLoading c
      = (Some (ChatPanel.input c, ChatPanel.selectedFile c),
         ChatPanel.mkState [] None (ChatPanel.copiedId c)))
  /\ (forall now1 now2 a,
        ChatPanel.submit now2
          (fst (ChatPanel.submit now1 c a)) (snd (ChatPanel.submit now1 c a))
        = ChatPanel.submit now1 c a).
Proof.
  split; [|split; [|split]].
  - unfold ChatPanel.submitDisabled.
    pose proof (trim_falsy_iff_blank (ChatPanel.input c)) as T.
    destruct isLoading.
    + rewrite orb_true_r. split; [now left|reflexivity].
    + rewrite orb_false_r. split.
      * intros H. apply andb_true_iff in H as [H1 H2]. right. split.
        -- apply T. now destruct (JS.truthy _).
        -- now destruct (ChatPanel.selectedFile c).
      * intros [H|[H1 H2]]; [discriminate|].
        apply T in H1. now rewrite H1, H2.
  - unfold ChatPanel.submitDisabled, ChatPanel.handleSubmit. now intros ->.
  - unfold ChatPanel.submitDisabled, ChatPanel.handleSubmit. now intros ->.
  - intros now1 now2 a. unfold ChatPanel.submit at 2 3 4.
    unfold ChatPanel.handleSubmit.
    destruct (_ || App.isLoading a) eqn:G; cbn [fst snd].
    + unfold ChatPanel.submit, ChatPanel.handleSubmit. now rewrite G.
    + unfold ChatPanel.submit, ChatPanel.handleSubmit. cbn. reflexivity.
Qed.

Lemma handleSubmit_sends_when_enabled_witness :
  let c := ChatPanel.mkState (JS.str "  ") None None in
  ChatPanel.handleSubmit false c = (None, c)
  /\ ChatPanel.handleSubmit false
       (ChatPanel.mkState (JS.str "  ") (Some (JS.str "data.csv")) None)
     = (Some (JS.str "  ", Some (JS.str "data.csv")),
        ChatPanel.mkState [] None None).
Proof.
  intros c. split.
  - exact (proj1 (proj2 (handleSubmit_sends_when_enabled false c)) eq_refl).
  - exact (proj1 (proj2 (proj2 (handleSubmit_sends_when_enabled false
             (ChatPanel.mkState (JS.str "  ") (Some (JS.str "data.csv"))
                None)))) eq_refl).
Defined.

(** ** The title of the table *)

Section TitleFacts.
Import ApaTableGenerator.

Lemma split_no_separator (c : N) (t : JS.jsstring) :
  ~ In c t -> JS.split c t = [t].
Proof.
  induction t as [|x t IH]; intros H; [reflexivity|].
  simpl. destruct (N.eqb_spec x c) as [->|Hne].
  - exfalso. apply H. now left.
  - rewrite IH; [reflexivity|]. intros Hin. apply H. now right.
Qed.

Lemma split_first_separator (c : N) (t1 t2 : JS.jsstring) :
  ~ In c t1 -> JS.split c (t1 ++ c :: t2) = t1 :: JS.split c t2.
Proof.
  induction t1 as [|x t1 IH]; intros H; simpl.
  - now rewrite N.eqb_refl.
  - destruct (N.eqb_spec x c) as [->|Hne].
    + exfalso. apply H. now left.
    + rewrite IH; [reflexivity|]. intros Hin. apply H. now right.
Qed.

Lemma replaceFirst_no_match (c : N) (r t : JS.jsstring) :
  ~ In c t -> JS.replaceFirst c r t = t.
Proof.
  induction t as [|x t IH]; intros H; [reflexivity|].
  simpl. destruct (N.eqb_spec x c) as [->|Hne].
  - exfalso. apply H. now left.
  - rewrite IH; [reflexivity|]. intros Hin. apply H. now right.
Qed.

Lemma replaceFirst_first (c : N) (r t1 t2 : JS.jsstring) :
  ~ In c t1 -> JS.replaceFirst c r (t1 ++ c :: t2) = t1 ++ r ++ t2.
Proof.
  induction t1 as [|x t1 IH]; intros H; simpl.
  - now rewrite N.eqb_refl.
  - destruct (N.eqb_spec x c) as [->|Hne].
    + exfalso. apply H. now left.
    + rewrite IH; [reflexivity|]. intros Hin. apply H. now right.
Qed.

(** X19. For a title of one line the preview and the PDF show it in bold
    with no italic line, the PDF table starts at 20, and the Markdown text
    opens with the title between two asterisks and one: the bold is not
    closed.  For a title of a first line and more, the preview shows the
    first line in bold and the second in italic, the PDF draws the second
    only when it is not empty and starts the table at 28 either way, and the
    Markdown text has the first line in bold and all the rest, a third line
    included, in the italic part. *)
Theorem title_lines_shown (s : State) :
  (~ In JS.nl (title s) ->
   titleShown s = (Some (title s), None)
   /\ pdfItalicLine s = None
   /\ pdfStartY s = 20%Z
   /\ exists rest,
        markdownTable s
        = JS.str "**" ++ title s ++ JS.str "*" ++ [JS.nl; JS.nl] ++ rest)
  /\ (forall first more,
        title s = first ++ JS.nl :: more -> ~ In JS.nl first ->
        (exists second,
           titleShown s = (Some first, Some second)
           /\ pdfItalicLine s
              = (if JS.truthy second then Some second else None)
           /\ JS.split JS.nl more = second :: tl (JS.split JS.nl more))
        /\ pdfStartY s = 28%Z
        /\ exists rest,
             markdownTable s
             = JS.str "**" ++ first ++ JS.str "**  " ++ [JS.nl]
               ++ JS.str "*" ++ more ++ JS.str "*" ++ [JS.nl; JS.nl]
               ++ rest).
Proof.
  split.
  - intros H. unfold titleShown, pdfItalicLine, pdfStartY, titleLines.
    rewrite (split_no_separator _ _ H). repeat split.
    eexists. rewrite markdownTable_rows, (replaceFirst_no_match _ _ _ H).
    reflexivity.
  - intros first more E H.
    unfold titleShown, pdfItalicLine, pdfStartY, titleLines.
    rewrite E, (split_first_separator _ _ _ H).
    destruct (JS.split JS.nl more) as [|second others] eqn:S.
    { now apply split_nonempty in S. }
    split; [|split].
    + exists second. repeat split.
    + reflexivity.
    + eexists. rewrite markdownTable_rows, E, (replaceFirst_first _ _ _ _ H).
      rewrite <- !app_assoc. reflexivity.
Qed.

Lemma title_lines_shown_witness :
  let s := mkState (JS.str "A" ++ [JS.nl] ++ JS.str "1")
             (JS.str "Table 1" ++ [JS.nl] ++ JS.str "Reliability")
             [] [] false in
  pdfStartY s = 28%Z
  /\ pdfStartY (mkState [] (JS.str "Table 1") [] [] false) = 20%Z.
Proof.
  intros s. split.
  - refine (proj1 (proj2 (proj2 (title_lines_shown s)
              (JS.str "Table 1") (JS.str "Reliability") eq_refl _))).
    cbn. intuition discriminate.
  - refine (proj1 (proj2 (proj2 (proj1 (title_lines_shown
              (mkState [] (JS.str "Table 1") [] [] false)) _)))).
    cbn. intuition discriminate.
Defined.

End TitleFacts.
